(** * pong-mini: a shallow embedding of [src/pong.ts]

    The game is one closure, [createPong], holding a mutable [GameState],
    two touch-tracking variables and an overlay, and a set of functions
    that mutate them.  The embedding keeps that shape: a [World] record is
    the closure together with the parts of the host (browser) the code
    talks to, and every function of the source is a function on worlds.

    Numbers.  A JavaScript [number] is modelled as a real number, so
    [Math.sqrt] and [Math.hypot] have their exact meaning and arithmetic
    is exact: rounding, NaN and the infinities of IEEE doubles are outside
    this model.  Scores only ever hold integers and are kept in [Z].

    Host.  [performance.now()] and [Math.random()] are read from two
    oracles carried by the world, each with a counter of the reads made so
    far, and [requestAnimationFrame] hands out increasing handles and
    records them as pending.

    Objects.  [state.scores] is an object, and [getScores] returns a new
    one; score objects therefore live in a store addressed by location, so
    that sharing between the game and its caller can be stated.

    Left out.  The DOM host, the canvas and what [render] paints on it,
    the style of the overlay, [preventDefault], [host.focus()], the resize
    observer and [destroy]: none of them reads or writes what the
    properties below are about. *)

From Stdlib Require Import Reals Lra ZArith Bool List String.
Import ListNotations.

Local Open Scope R_scope.

(** ** Numbers and the helpers of [Math] *)

(** [a < b] and [a <= b] as the source's boolean tests. *)
Definition Rltb (a b : R) : bool := if Rlt_dec a b then true else false.
Definition Rleb (a b : R) : bool := if Rle_dec a b then true else false.

Infix "<?" := Rltb (at level 70, no associativity) : R_scope.
Infix "<=?" := Rleb (at level 70, no associativity) : R_scope.
Notation "a >? b" := (Rltb b a)
  (at level 70, no associativity, only parsing) : R_scope.
Notation "a >=? b" := (Rleb b a)
  (at level 70, no associativity, only parsing) : R_scope.

(** [a || b] on numbers: [b] when [a] is falsy, that is zero. *)
Definition or_else (a b : R) : R := if Req_dec_T a 0 then b else a.

(** [Math.sign]. *)
Definition Math_sign (v : R) : R :=
  if 0 <? v then 1 else if v <? 0 then -1 else 0.

(** [Math.hypot] of two arguments. *)
Definition Math_hypot (a b : R) : R := sqrt (a * a + b * b).

(** [const clamp = (v, min, max) => Math.min(max, Math.max(min, v))]. *)
Definition clamp (v min max : R) : R := Rmin max (Rmax min v).

(** [a ?? b]. *)
Definition nullish {A : Type} (a : option A) (b : A) : A :=
  match a with Some v => v | None => b end.

(** ** Data model *)

(** The difficulty settings of [PongOptions]; the fields that only size or
    style the DOM host play no part in the simulation. *)
Record PongOptions := mkOptions {
  playerSpeed : option R;
  aiSpeed : option R;
  ballSpeed : option R;
  ballSpeedStep : option R;
  ballSpeedMax : option R;
  winScore : option R
}.

(** [{ player: number; ai: number }]. *)
Record Scores := mkScores { player : Z; ai : Z }.

(** A reference to a score object. *)
Definition loc := nat.

(** [interface GameState], with the nested object literals [ball],
    [player], [ai] and [input] flattened ([state.ball.x] is [ball_x]) and
    [scores] the reference it is. *)
Record GameState := mkState {
  ball_x : R;
  ball_y : R;
  ball_vx : R;
  ball_vy : R;
  player_y : R;
  ai_y : R;
  scores : loc;
  running : bool;
  pausedUntil : R;
  lastTime : option R;
  input_up : bool;
  input_down : bool;
  rafId : nat
}.

(** What [overlay.textContent] says. *)
Inductive OverlayText :=
| ClickOrTapToStart
| NoText
| ScoreLine (p a : Z)
| YouWin
| AiWins.

(** The closure of [createPong] and the host around it. *)
Record World := mkWorld {
  state : GameState;
  (* score objects *)
  cells : loc -> Scores;
  next_loc : loc;
  (* let touchStartY, touchCurrentY *)
  touchStartY : R;
  touchCurrentY : R;
  overlay : OverlayText;
  (* performance.now() *)
  clock : nat -> R;
  clock_reads : nat;
  (* Math.random() *)
  rand : nat -> R;
  rand_reads : nat;
  (* requestAnimationFrame / cancelAnimationFrame *)
  raf_next : nat;
  raf_pending : list nat
}.

Coercion state : World >-> GameState.

(** *** Field assignment *)

Definition with_state (f : GameState -> GameState) (w : World) : World :=
  mkWorld (f (state w)) (cells w) (next_loc w) (touchStartY w)
    (touchCurrentY w) (overlay w) (clock w) (clock_reads w) (rand w)
    (rand_reads w) (raf_next w) (raf_pending w).

Definition set_ball_x (v : R) : World -> World :=
  with_state (fun s => mkState v (ball_y s) (ball_vx s) (ball_vy s)
    (player_y s) (ai_y s) (scores s) (running s) (pausedUntil s)
    (lastTime s) (input_up s) (input_down s) (rafId s)).

Definition set_ball_y (v : R) : World -> World :=
  with_state (fun s => mkState (ball_x s) v (ball_vx s) (ball_vy s)
    (player_y s) (ai_y s) (scores s) (running s) (pausedUntil s)
    (lastTime s) (input_up s) (input_down s) (rafId s)).

Definition set_ball_vx (v : R) : World -> World :=
  with_state (fun s => mkState (ball_x s) (ball_y s) v (ball_vy s)
    (player_y s) (ai_y s) (scores s) (running s) (pausedUntil s)
    (lastTime s) (input_up s) (input_down s) (rafId s)).

Definition set_ball_vy (v : R) : World -> World :=
  with_state (fun s => mkState (ball_x s) (ball_y s) (ball_vx s) v
    (player_y s) (ai_y s) (scores s) (running s) (pausedUntil s)
    (lastTime s) (input_up s) (input_down s) (rafId s)).

Definition set_player_y (v : R) : World -> World :=
  with_state (fun s => mkState (ball_x s) (ball_y s) (ball_vx s) (ball_vy s)
    v (ai_y s) (scores s) (running s) (pausedUntil s)
    (lastTime s) (input_up s) (input_down s) (rafId s)).

Definition set_ai_y (v : R) : World -> World :=
  with_state (fun s => mkState (ball_x s) (ball_y s) (ball_vx s) (ball_vy s)
    (player_y s) v (scores s) (running s) (pausedUntil s)
    (lastTime s) (input_up s) (input_down s) (rafId s)).

Definition set_running (v : bool) : World -> World :=
  with_state (fun s => mkState (ball_x s) (ball_y s) (ball_vx s) (ball_vy s)
    (player_y s) (ai_y s) (scores s) v (pausedUntil s)
    (lastTime s) (input_up s) (input_down s) (rafId s)).

Definition set_pausedUntil (v : R) : World -> World :=
  with_state (fun s => mkState (ball_x s) (ball_y s) (ball_vx s) (ball_vy s)
    (player_y s) (ai_y s) (scores s) (running s) v
    (lastTime s) (input_up s) (input_down s) (rafId s)).

Definition set_lastTime (v : option R) : World -> World :=
  with_state (fun s => mkState (ball_x s) (ball_y s) (ball_vx s) (ball_vy s)
    (player_y s) (ai_y s) (scores s) (running s) (pausedUntil s)
    v (input_up s) (input_down s) (rafId s)).

Definition set_input_up (v : bool) : World -> World :=
  with_state (fun s => mkState (ball_x s) (ball_y s) (ball_vx s) (ball_vy s)
    (player_y s) (ai_y s) (scores s) (running s) (pausedUntil s)
    (lastTime s) v (input_down s) (rafId s)).

Definition set_input_down (v : bool) : World -> World :=
  with_state (fun s => mkState (ball_x s) (ball_y s) (ball_vx s) (ball_vy s)
    (player_y s) (ai_y s) (scores s) (running s) (pausedUntil s)
    (lastTime s) (input_up s) v (rafId s)).

Definition set_rafId (v : nat) : World -> World :=
  with_state (fun s => mkState (ball_x s) (ball_y s) (ball_vx s) (ball_vy s)
    (player_y s) (ai_y s) (scores s) (running s) (pausedUntil s)
    (lastTime s) (input_up s) (input_down s) v).

Definition set_touchStartY (v : R) (w : World) : World :=
  mkWorld (state w) (cells w) (next_loc w) v (touchCurrentY w) (overlay w)
    (clock w) (clock_reads w) (rand w) (rand_reads w) (raf_next w)
    (raf_pending w).

Definition set_touchCurrentY (v : R) (w : World) : World :=
  mkWorld (state w) (cells w) (next_loc w) (touchStartY w) v (overlay w)
    (clock w) (clock_reads w) (rand w) (rand_reads w) (raf_next w)
    (raf_pending w).

Definition set_overlay (v : OverlayText) (w : World) : World :=
  mkWorld (state w) (cells w) (next_loc w) (touchStartY w) (touchCurrentY w)
    v (clock w) (clock_reads w) (rand w) (rand_reads w) (raf_next w)
    (raf_pending w).

(** *** The store of score objects *)

(** Reading the object at [l]. *)
Definition deref (l : loc) (w : World) : Scores := cells w l.

(** Assigning to the object at [l]: [f] rewrites its fields. *)
Definition assign (l : loc) (f : Scores -> Scores) (w : World) : World :=
  mkWorld (state w)
    (fun l' => if Nat.eqb l' l then f (cells w l') else cells w l')
    (next_loc w) (touchStartY w) (touchCurrentY w) (overlay w) (clock w)
    (clock_reads w) (rand w) (rand_reads w) (raf_next w) (raf_pending w).

(** A new object literal holding [v]; the result is its reference. *)
Definition alloc (v : Scores) (w : World) : loc * World :=
  (next_loc w,
   mkWorld (state w)
     (fun l' => if Nat.eqb l' (next_loc w) then v else cells w l')
     (S (next_loc w)) (touchStartY w) (touchCurrentY w) (overlay w) (clock w)
     (clock_reads w) (rand w) (rand_reads w) (raf_next w) (raf_pending w)).

Definition set_player (v : Z) (s : Scores) : Scores := mkScores v (ai s).
Definition set_ai (v : Z) (s : Scores) : Scores := mkScores (player s) v.

(** ** The host *)

(** [performance.now()]. *)
Definition performance_now (w : World) : R * World :=
  (clock w (clock_reads w),
   mkWorld (state w) (cells w) (next_loc w) (touchStartY w) (touchCurrentY w)
     (overlay w) (clock w) (S (clock_reads w)) (rand w) (rand_reads w)
     (raf_next w) (raf_pending w)).

(** [Math.random()]. *)
Definition Math_random (w : World) : R * World :=
  (rand w (rand_reads w),
   mkWorld (state w) (cells w) (next_loc w) (touchStartY w) (touchCurrentY w)
     (overlay w) (clock w) (clock_reads w) (rand w) (S (rand_reads w))
     (raf_next w) (raf_pending w)).

(** [requestAnimationFrame(loop)]: a new handle, now pending. *)
Definition requestAnimationFrame (w : World) : nat * World :=
  (raf_next w,
   mkWorld (state w) (cells w) (next_loc w) (touchStartY w) (touchCurrentY w)
     (overlay w) (clock w) (clock_reads w) (rand w) (rand_reads w)
     (S (raf_next w)) (raf_next w :: raf_pending w)).

(** [cancelAnimationFrame(id)]. *)
Definition cancelAnimationFrame (id : nat) (w : World) : World :=
  mkWorld (state w) (cells w) (next_loc w) (touchStartY w) (touchCurrentY w)
    (overlay w) (clock w) (clock_reads w) (rand w) (rand_reads w)
    (raf_next w) (filter (fun h => negb (Nat.eqb h id)) (raf_pending w)).

(** ** Events the host delivers *)

Record Touch := mkTouch { clientX : R; clientY : R }.

(** A [TouchEvent]: the touches on the surface and the ones that changed. *)
Record TouchEvent := mkTouchEvent {
  touches : list Touch;
  changedTouches : list Touch
}.

(** What [host.getBoundingClientRect()] answers. *)
Record DOMRect := mkRect {
  rect_left : R;
  rect_top : R;
  rect_width : R;
  rect_height : R
}.

(** ** The game *)

Definition WIDTH : R := 800.
Definition HEIGHT : R := 500.
Definition PADDLE_WIDTH : R := 12.
Definition PADDLE_HEIGHT : R := 90.
Definition BALL_RADIUS : R := 8.
Definition GOAL_PAUSE_MS : R := 1000.
Definition PLAYER_X : R := 20.
Definition AI_X : R := WIDTH - 20 - PADDLE_WIDTH.
Definition touchThreshold : R := 20.

Section Game.

Variable options : PongOptions.

Definition PLAYER_SPEED : R := nullish (playerSpeed options) 5.
Definition AI_MAX_SPEED : R := nullish (aiSpeed options) 3.
Definition BALL_SPEED_INITIAL : R := nullish (ballSpeed options) 4.
Definition BALL_SPEED_STEP : R := nullish (ballSpeedStep options) (3 / 10).
Definition BALL_SPEED_MAX : R := nullish (ballSpeedMax options) 10.
Definition WIN_SCORE : R := nullish (winScore options) 5.

(** [randomSign] and [randomRange]. *)
Definition randomSign (w : World) : R * World :=
  let (r, w) := Math_random w in
  (if r <? 5 / 10 then -1 else 1, w).

Definition randomRange (min max : R) (w : World) : R * World :=
  let (r, w) := Math_random w in
  (min + r * (max - min), w).

(** [resetBall(direction?)]. *)
Definition resetBall (direction : option R) (w : World) : World :=
  let w := set_ball_x (WIDTH / 2) w in
  let w := set_ball_y (HEIGHT / 2) w in
  let (dirX, w) :=
    match direction with
    | Some d => (d, w)
    | None => randomSign w
    end in
  let w := set_ball_vx (dirX * BALL_SPEED_INITIAL) w in
  let (vy, w) :=
    randomRange (- BALL_SPEED_INITIAL / 2) (BALL_SPEED_INITIAL / 2) w in
  set_ball_vy vy w.

(** [resetMatch()]. *)
Definition resetMatch (w : World) : World :=
  let w := assign (scores w) (set_player 0) w in
  let w := assign (scores w) (set_ai 0) w in
  let w := set_running true w in
  let w := set_overlay NoText w in
  let w := set_player_y (HEIGHT / 2 - PADDLE_HEIGHT / 2) w in
  let w := set_ai_y (HEIGHT / 2 - PADDLE_HEIGHT / 2) w in
  resetBall None w.

(** [reflectFromPaddle(paddleY)]. *)
Definition reflectFromPaddle (paddleY : R) (w : World) : World :=
  let w := set_ball_vx (ball_vx w * -1) w in
  let speed :=
    Rmin (Math_hypot (ball_vx w) (ball_vy w) + BALL_SPEED_STEP)
         BALL_SPEED_MAX in
  let angleInfluence :=
    (ball_y w - (paddleY + PADDLE_HEIGHT / 2)) / (PADDLE_HEIGHT / 2) in
  let directionX := or_else (Math_sign (ball_vx w)) 1 in
  let vy := ball_vy w + angleInfluence * 2 in
  let vx := directionX * sqrt (Rmax (speed * speed - vy * vy) 1) in
  let norm := or_else (Math_hypot vx vy) 1 in
  let vx := (vx / norm) * speed in
  let vy := (vy / norm) * speed in
  let w := set_ball_vx vx w in
  set_ball_vy vy w.

(** [onScore(nextDirection)]. *)
Definition onScore (nextDirection : R) (w : World) : World :=
  if (IZR (player (deref (scores w) w)) >=? WIN_SCORE)
     || (IZR (ai (deref (scores w) w)) >=? WIN_SCORE)
  then
    let w := set_running false w in
    set_overlay
      (if (player (deref (scores w) w) >? ai (deref (scores w) w))%Z
       then YouWin else AiWins) w
  else
    let (now, w) := performance_now w in
    let w := set_pausedUntil (now + GOAL_PAUSE_MS) w in
    resetBall (Some nextDirection) w.

(** *** [update(dt)]

    The body of [update] is cut where the source has its blank lines, one
    definition for each group of statements, for the proofs to follow
    them one at a time; [update] itself runs them in the source's order. *)

(** Lines 276-278. *)
Definition playerVelocity (w : World) : R :=
  let playerVelocity := 0 in
  let playerVelocity :=
    if input_up w then playerVelocity - PLAYER_SPEED else playerVelocity in
  if input_down w then playerVelocity + PLAYER_SPEED else playerVelocity.

(** Lines 282-283. *)
Definition aiSpeed_of (w : World) : R :=
  let aiSpeed := AI_MAX_SPEED in
  if ball_vx w <? 0 then aiSpeed * (3 / 10) else aiSpeed.

(** Lines 276-285. *)
Definition movePaddles (w : World) : World :=
  let w :=
    set_player_y
      (clamp (player_y w + playerVelocity w) 0 (HEIGHT - PADDLE_HEIGHT)) w in
  let ballTargetY := ball_y w - PADDLE_HEIGHT / 2 in
  let delta := ballTargetY - ai_y w in
  set_ai_y
    (clamp (ai_y w + clamp delta (- aiSpeed_of w) (aiSpeed_of w))
           0 (HEIGHT - PADDLE_HEIGHT)) w.

(** Lines 287-291. *)
Definition moveBall (w : World) : World :=
  let w := set_ball_x (ball_x w + ball_vx w) w in
  let w := set_ball_y (ball_y w + ball_vy w) w in
  let w :=
    if ball_y w - BALL_RADIUS <=? 0
    then set_ball_vy (ball_vy w * -1) (set_ball_y BALL_RADIUS w)
    else w in
  if ball_y w + BALL_RADIUS >=? HEIGHT
  then set_ball_vy (ball_vy w * -1) (set_ball_y (HEIGHT - BALL_RADIUS) w)
  else w.

(** Lines 293-301 and 302-310. *)
Definition hitsPlayer (w : World) : bool :=
  (ball_x w - BALL_RADIUS <=? PLAYER_X + PADDLE_WIDTH)
  && (ball_x w - BALL_RADIUS >=? PLAYER_X)
  && (ball_y w >=? player_y w)
  && (ball_y w <=? player_y w + PADDLE_HEIGHT).

Definition hitsAi (w : World) : bool :=
  (ball_x w + BALL_RADIUS >=? AI_X)
  && (ball_x w + BALL_RADIUS <=? AI_X + PADDLE_WIDTH)
  && (ball_y w >=? ai_y w)
  && (ball_y w <=? ai_y w + PADDLE_HEIGHT).

Definition hitPlayer (w : World) : World :=
  if hitsPlayer w then
    let w := set_ball_x (PLAYER_X + PADDLE_WIDTH + BALL_RADIUS) w in
    reflectFromPaddle (player_y w) w
  else w.

Definition hitAi (w : World) : World :=
  if hitsAi w then
    let w := set_ball_x (AI_X - BALL_RADIUS) w in
    reflectFromPaddle (ai_y w) w
  else w.

(** Lines 312-313. *)
Definition checkGoal (w : World) : World :=
  if ball_x w <? - BALL_RADIUS then
    let w := assign (scores w) (fun s => set_ai (ai s + 1) s) w in
    onScore (-1) w
  else if ball_x w >? WIDTH + BALL_RADIUS then
    let w := assign (scores w) (fun s => set_player (player s + 1) s) w in
    onScore 1 w
  else w.

(** Lines 271-314. *)
Definition update (dt : R) (w : World) : World :=
  if negb (running w) then w else
  let (now, w) := performance_now w in
  if now <? pausedUntil w then w else
  let w := movePaddles w in
  let w := moveBall w in
  let w := hitPlayer w in
  let w := hitAi w in
  checkGoal w.

(** Lines 276-313: a tick that is neither stopped nor paused. *)
Definition tick (w : World) : World :=
  checkGoal (hitAi (hitPlayer (moveBall (movePaddles w)))).

(** [render()]: the canvas is painted from the state and is not modelled;
    what remains is the score line of the overlay. *)
Definition render (w : World) : World :=
  if running w
  then set_overlay
         (ScoreLine (player (deref (scores w) w)) (ai (deref (scores w) w))) w
  else w.

(** [loop(ts)]: one frame. *)
Definition loop (ts : R) (w : World) : World :=
  let w :=
    match lastTime w with
    | None => set_lastTime (Some ts) w
    | Some _ => w
    end in
  let dt := (ts - nullish (lastTime w) ts) / 1000 in
  let w := set_lastTime (Some ts) w in
  let w := update dt w in
  let w := render w in
  let (id, w) := requestAnimationFrame w in
  set_rafId id w.

(** [start()], [stop()], [reset()] and [getScores()]. *)
Definition start (w : World) : World :=
  if running w then w else
  let w := set_running true w in
  let w := set_lastTime None w in
  let w := set_overlay NoText w in
  let (id, w) := requestAnimationFrame w in
  set_rafId id w.

Definition stop (w : World) : World :=
  let w := set_running false w in
  if negb (Nat.eqb (rafId w) 0) then cancelAnimationFrame (rafId w) w else w.

Definition reset (w : World) : World := resetMatch w.

Definition getScores (w : World) : loc * World :=
  alloc (deref (scores w) w) w.

(** The listeners. *)
Definition onKeyDown (code : string) (w : World) : World :=
  let w := if String.eqb code "ArrowUp" then set_input_up true w else w in
  let w := if String.eqb code "ArrowDown" then set_input_down true w else w in
  if String.eqb code "Enter" && negb (running w) then resetMatch w else w.

Definition onKeyUp (code : string) (w : World) : World :=
  let w := if String.eqb code "ArrowUp" then set_input_up false w else w in
  if String.eqb code "ArrowDown" then set_input_down false w else w.

Definition startOrReset (w : World) : World :=
  if (player (deref (scores w) w) =? 0)%Z && (ai (deref (scores w) w) =? 0)%Z
  then start w
  else resetMatch w.

Definition onClick (w : World) : World :=
  if negb (running w) then startOrReset w else w.

Definition onTouchStart (e : TouchEvent) (w : World) : World :=
  match touches e with
  | t :: _ =>
      let w := set_touchStartY (clientY t) w in
      set_touchCurrentY (touchStartY w) w
  | [] => w
  end.

Definition onTouchMove (e : TouchEvent) (w : World) : World :=
  match touches e with
  | t :: _ =>
      let w := set_touchCurrentY (clientY t) w in
      let deltaY := touchCurrentY w - touchStartY w in
      if Rabs deltaY >? touchThreshold then
        if deltaY <? 0
        then set_input_down false (set_input_up true w)
        else set_input_down true (set_input_up false w)
      else w
  | [] => w
  end.

Definition onTouchEnd (e : TouchEvent) (rect : DOMRect) (w : World) : World :=
  let w := set_input_up false w in
  let w := set_input_down false w in
  if negb (running w) then
    match changedTouches e with
    | touch :: _ =>
        let x := clientX touch - rect_left rect in
        let y := clientY touch - rect_top rect in
        if (x >=? 0) && (x <=? rect_width rect)
           && (y >=? 0) && (y <=? rect_height rect)
        then startOrReset w
        else w
    | [] => w
    end
  else w.

(** The state literal of [createPong], the first score object, the start
    overlay and the first [render()]; the host's clock and random source
    are given. *)
Definition createPong (clk rnd : nat -> R) : World :=
  render
    (mkWorld
       (mkState (WIDTH / 2) (HEIGHT / 2) BALL_SPEED_INITIAL 0
          (HEIGHT / 2 - PADDLE_HEIGHT / 2) (HEIGHT / 2 - PADDLE_HEIGHT / 2)
          0%nat false 0 None false false 0%nat)
       (fun _ => mkScores 0 0) 1%nat
       0 0 ClickOrTapToStart
       clk 0%nat rnd 0%nat
       1%nat []).

(** *** The vocabulary of the properties *)



(** How a goal is handled: [w] is the world when the tick begins, [sc] the
    scores once the goal is counted, [d] the direction handed to
    [onScore], [w'] the world when the tick ends.  Either the match is
    over, and the ball is left where the tick carried it; or the game
    pauses and the ball is served from the centre, its horizontal
    velocity [d] times the initial speed.  Where the serve heads is then
    the sign of that speed's business: where [d] points for a positive
    initial speed, nowhere at all for a zero one, and the other way for a
    negative one. *)
Definition goal_handled (d : R) (sc : Scores) (w w' : World) : Prop :=
  deref (scores w') w' = sc
  /\ (WIN_SCORE <= IZR (player sc)
      \/ WIN_SCORE <= IZR (ai sc) ->
      running w' = false
      /\ ball_x w' = ball_x w + ball_vx w
      /\ ball_vx w' = ball_vx w
      /\ pausedUntil w' = pausedUntil w)
  /\ (IZR (player sc) < WIN_SCORE
      /\ IZR (ai sc) < WIN_SCORE ->
      running w' = true
      /\ pausedUntil w' = clock w (S (clock_reads w)) + GOAL_PAUSE_MS
      /\ ball_x w' = WIDTH / 2
      /\ ball_y w' = HEIGHT / 2
      /\ ball_vx w' = d * BALL_SPEED_INITIAL
      /\ ball_vy w'
         = - BALL_SPEED_INITIAL / 2
           + rand w (rand_reads w)
             * (BALL_SPEED_INITIAL / 2
                - - BALL_SPEED_INITIAL / 2)
      /\ (d * d = 1 ->
          (0 < BALL_SPEED_INITIAL -> 0 < d * ball_vx w')
          /\ (BALL_SPEED_INITIAL = 0 -> ball_vx w' = 0 /\ ball_vy w' = 0)
          /\ (BALL_SPEED_INITIAL < 0 -> d * ball_vx w' < 0))).

(** The scalar speed [reflectFromPaddle] computes at line 247, in terms of
    the velocity before the hit. *)
Definition speedAfterHit (w : World) : R :=
  Rmin (Math_hypot (ball_vx w) (ball_vy w) + BALL_SPEED_STEP)
       BALL_SPEED_MAX.

End Game.

(** ** What the host does with the closure *)

(** An animation frame at time [ts]: the callbacks pending when the frame
    begins (each of them is [loop]) are run once; what they request is for
    the next frame. *)
Definition animationFrame (options : PongOptions) (ts : R) (w : World)
  : World :=
  let n := List.length (raf_pending w) in
  let w :=
    mkWorld (state w) (cells w) (next_loc w) (touchStartY w)
      (touchCurrentY w) (overlay w) (clock w) (clock_reads w) (rand w)
      (rand_reads w) (raf_next w) [] in
  Nat.iter n (loop options ts) w.

(** Everything that can happen to a game: the events its listeners receive,
    a frame, and the calls of its [PongApi]. *)
Inductive Event :=
| KeyDown (code : string)
| KeyUp (code : string)
| Click
| TouchStart (e : TouchEvent)
| TouchMove (e : TouchEvent)
| TouchEnd (e : TouchEvent) (rect : DOMRect)
| Frame (ts : R)
| CallStart
| CallStop
| CallReset
| CallGetScores.

Definition handle (options : PongOptions) (ev : Event) (w : World) : World :=
  match ev with
  | KeyDown code => onKeyDown options code w
  | KeyUp code => onKeyUp code w
  | Click => onClick options w
  | TouchStart e => onTouchStart e w
  | TouchMove e => onTouchMove e w
  | TouchEnd e rect => onTouchEnd options e rect w
  | Frame ts => animationFrame options ts w
  | CallStart => start w
  | CallStop => stop w
  | CallReset => reset options w
  | CallGetScores => snd (getScores w)
  end.

(** A history, oldest event first. *)
Definition run (options : PongOptions) (evs : list Event) (w : World)
  : World :=
  fold_left (fun w ev => handle options ev w) evs w.

(** ** The vocabulary of the invariants *)

(** Both paddles inside the field. *)
Definition paddles_in_field (w : World) : Prop :=
  0 <= player_y w <= HEIGHT - PADDLE_HEIGHT
  /\ 0 <= ai_y w <= HEIGHT - PADDLE_HEIGHT.

(** From [w] to [w'] the game kept its score object, no object was lost,
    and every object other than the game's own is as it was. *)
Definition keeps (w w' : World) : Prop :=
  scores w' = scores w
  /\ (next_loc w <= next_loc w')%nat
  /\ forall l : loc,
       l <> scores w -> (l < next_loc w)%nat -> cells w' l = cells w l.

(** The two together: what one operation of the game guarantees. *)
Definition sound_step (w w' : World) : Prop :=
  keeps w w' /\ (paddles_in_field w -> paddles_in_field w').

(** The world with every score object but the game's own forgotten: each
    cell of the store answers what the game's own object holds. *)
Definition forget (w : World) : World :=
  mkWorld (state w) (fun _ => cells w (scores w)) (next_loc w)
    (touchStartY w) (touchCurrentY w) (overlay w) (clock w) (clock_reads w)
    (rand w) (rand_reads w) (raf_next w) (raf_pending w).

(** An operation is blind to the other objects when, up to them, its
    result is the same from [w] and from [forget w]. *)
Definition blind (f : World -> World) : Prop :=
  forall w : World, forget (f w) = forget (f (forget w)).

(** ** Worlds to run the game on *)

(** No option given: every setting takes its default. *)
Definition defaults : PongOptions :=
  mkOptions None None None None None None.

(** The default settings but for a negative [ballSpeedMax]. *)
Definition negative_max : PongOptions :=
  mkOptions None None None None (Some (-1)) None.

(** The default settings but for a negative [ballSpeed], and but for a
    negative [aiSpeed]. *)
Definition negative_ball : PongOptions :=
  mkOptions None None (Some (-4)) None None None.


(** A clock stuck at 0, and a random source that always answers 0. *)
Definition still : nat -> R := fun _ => 0.

(** A game just created, and the same game once started. *)
Definition fresh_game : World := createPong defaults still still.
Definition playing : World := start fresh_game.

(** A started game whose ball is about to leave on the left. *)
Definition leaving_left : World := set_ball_vx (-4) (set_ball_x (-5) playing).

(** The same, in a game whose [ballSpeed] is -4. *)
Definition leaving_left_backwards : World :=
  set_ball_vx (-4)
    (set_ball_x (-5) (start (createPong negative_ball still still))).



(** A started game with both arrow keys held. *)
Definition both_keys : World :=
  onKeyDown defaults "ArrowDown" (onKeyDown defaults "ArrowUp" playing).

(** A finger put down at height 0, and the event of its move to 25. *)
Definition finger_down : World :=
  onTouchStart (mkTouchEvent [mkTouch 0 0] []) fresh_game.
Definition finger_moves : TouchEvent := mkTouchEvent [mkTouch 0 25] [].

(** ** The rest of the closure *)

(** The element the host is mounted in, as [updateSize] sees it: the width
    of its bounding rectangle and its [clientWidth]. *)
Record ParentElement := mkParent {
  parent_rect_width : R;
  parent_clientWidth : R
}.

(** [updateSize] (lines 365-374), with [viewWidth] and [maxW] from lines 43
    and 364: [width] and [maxWidth] are the two options it depends on,
    [parent] is [host.parentElement].  The answer is the width and height
    it writes to [host.style], in pixels.  [Infinity], the cap used when
    [maxWidth] is not a number, is the absence of a cap. *)
Definition updateSize (width maxWidth : option R)
    (parent : option ParentElement) : R * R :=
  let viewWidth := or_else (nullish width 0) 400 in
  let cw :=
    match parent with
    | Some el =>
        if Req_dec_T (parent_rect_width el) 0
        then parent_clientWidth el
        else parent_rect_width el
    | None => 0
    end in
  let cw := if Req_dec_T cw 0 then viewWidth else cw in
  let cw :=
    match maxWidth with
    | Some maxW => Rmin cw maxW
    | None => cw
    end in
  let ch := cw * (HEIGHT / WIDTH) in
  (cw, ch).

(** A run of animation frames, at the given time stamps. *)
Definition frames (options : PongOptions) (tss : list R) (w : World)
  : World :=
  run options (map Frame tss) w.

(** ** The vocabulary of the further properties *)

(** The ball between the top and the bottom wall. *)
Definition ball_between_walls (w : World) : Prop :=
  BALL_RADIUS <= ball_y w <= HEIGHT - BALL_RADIUS.

(** Neither score is negative. *)
Definition scores_not_negative (w : World) : Prop :=
  (0 <= player (deref (scores w) w))%Z /\ (0 <= ai (deref (scores w) w))%Z.

(** What a spectator sees of a match is the same in [w] and [w']: ball,
    paddles, scores, run and pause status, overlay. *)
Definition same_match (w w' : World) : Prop :=
  ball_x w' = ball_x w /\ ball_y w' = ball_y w
  /\ ball_vx w' = ball_vx w /\ ball_vy w' = ball_vy w
  /\ player_y w' = player_y w /\ ai_y w' = ai_y w
  /\ deref (scores w') w' = deref (scores w) w
  /\ running w' = running w /\ pausedUntil w' = pausedUntil w
  /\ overlay w' = overlay w.

(** What [update] has no business with is the same in [w] and [w']: the
    input flags, the frame bookkeeping, the touch variables and the extent
    of the store. *)
Definition same_surroundings (w w' : World) : Prop :=
  input_up w' = input_up w /\ input_down w' = input_down w
  /\ lastTime w' = lastTime w /\ rafId w' = rafId w
  /\ raf_pending w' = raf_pending w /\ raf_next w' = raf_next w
  /\ touchStartY w' = touchStartY w /\ touchCurrentY w' = touchCurrentY w
  /\ scores w' = scores w /\ next_loc w' = next_loc w.

(** The random source answers within [0, 1], as [Math.random()] does, and
    the ball is no faster than the greater of [BALL_SPEED_MAX] and the
    speed of the steepest serve, [sqrt 5 / 2] times the initial speed. *)
Definition speed_capped (options : PongOptions) (w : World) : Prop :=
  (forall n : nat, 0 <= rand w n <= 1)
  /\ Math_hypot (ball_vx w) (ball_vy w)
     <= Rmax (BALL_SPEED_MAX options)
             (sqrt 5 / 2 * BALL_SPEED_INITIAL options).

(** The two that every operation keeps. *)
Definition well_kept (w : World) : Prop :=
  ball_between_walls w /\ scores_not_negative w.

(** The game about to lose the ball on the left, at four goals to nil for
    the AI. *)
Definition match_point : World :=
  assign (scores leaving_left) (set_ai 4) leaving_left.

(** The match after the frame that loses it: stopped, and with the frame
    that [loop] went on to request still pending. *)
Definition lost : World := animationFrame defaults 0 match_point.

(** A started game whose ball is high up, with the up arrow held. *)
Definition pressing : World :=
  onKeyDown defaults "ArrowUp" (set_ball_y 100 playing).

(** The parent of the host has no width of its own to give. *)
Definition no_parent_width (parent : option ParentElement) : Prop :=
  match parent with
  | Some el => parent_rect_width el = 0 /\ parent_clientWidth el = 0
  | None => True
  end.

(** The event of a finger moving to 20, the threshold itself. *)
Definition finger_moves_little : TouchEvent := mkTouchEvent [mkTouch 0 20] [].

(** A started game in the pause that follows a goal. *)
Definition pausing : World := set_pausedUntil 1000 playing.

(** ** Properties *)

(** *** Comparisons and [clamp] *)

Lemma Rltb_spec a b : reflect (a < b) (a <? b).
Proof. unfold Rltb. destruct (Rlt_dec a b); constructor; assumption. Qed.

Lemma Rleb_spec a b : reflect (a <= b) (a <=? b).
Proof. unfold Rleb. destruct (Rle_dec a b); constructor; assumption. Qed.

Lemma Rltb_true a b : a < b -> (a <? b) = true.
Proof. intros H. destruct (Rltb_spec a b); [reflexivity | contradiction]. Qed.

Lemma Rltb_false a b : b <= a -> (a <? b) = false.
Proof. intros H. destruct (Rltb_spec a b); [lra | reflexivity]. Qed.

Lemma Rleb_true a b : a <= b -> (a <=? b) = true.
Proof. intros H. destruct (Rleb_spec a b); [reflexivity | contradiction]. Qed.

Lemma Rleb_false a b : b < a -> (a <=? b) = false.
Proof. intros H. destruct (Rleb_spec a b); [lra | reflexivity]. Qed.

(** Split on every comparison in the goal. *)
Ltac cmp :=
  repeat match goal with
  | |- context [Rltb ?a ?b] => destruct (Rltb_spec a b)
  | |- context [Rleb ?a ?b] => destruct (Rleb_spec a b)
  end.

(** Unfold the constants of the field. *)
Ltac consts :=
  unfold AI_X, PLAYER_X, PADDLE_WIDTH, PADDLE_HEIGHT, BALL_RADIUS, WIDTH,
    HEIGHT, GOAL_PAUSE_MS, touchThreshold in *.

Lemma clamp_bounds v lo hi : lo <= hi -> lo <= clamp v lo hi <= hi.
Proof.
  intros H. unfold clamp, Rmin, Rmax.
  destruct (Rle_dec lo v); destruct (Rle_dec hi _); lra.
Qed.

Lemma clamp_id v lo hi : lo <= v <= hi -> clamp v lo hi = v.
Proof.
  intros H. unfold clamp, Rmin, Rmax.
  destruct (Rle_dec lo v); destruct (Rle_dec hi _); lra.
Qed.

Lemma clamp_step_small d e : 0 <= e -> Rabs (clamp d (- e) e) <= e.
Proof.
  intros H. unfold clamp, Rmin, Rmax, Rabs.
  destruct (Rle_dec (- e) d); destruct (Rle_dec e _);
    destruct (Rcase_abs _); lra.
Qed.

Section Properties.

Variable options : PongOptions.

Lemma update_phases dt w :
  update options dt w =
  if negb (running w) then w else
  let (now, w) := performance_now w in
  if now <? pausedUntil w then w else tick options w.
Proof. reflexivity. Qed.

(** *** Frames: what the parts of a tick leave alone *)

Lemma reflectFromPaddle_frame p w :
  let w' := reflectFromPaddle options p w in
  player_y w' = player_y w /\ ai_y w' = ai_y w /\ ball_x w' = ball_x w
  /\ ball_y w' = ball_y w /\ running w' = running w
  /\ pausedUntil w' = pausedUntil w /\ scores w' = scores w
  /\ cells w' = cells w /\ next_loc w' = next_loc w
  /\ input_up w' = input_up w /\ input_down w' = input_down w.
Proof. cbv zeta. repeat split. Qed.

Lemma resetBall_frame d w :
  let w' := resetBall options d w in
  player_y w' = player_y w /\ ai_y w' = ai_y w /\ running w' = running w
  /\ pausedUntil w' = pausedUntil w /\ scores w' = scores w
  /\ cells w' = cells w /\ next_loc w' = next_loc w
  /\ input_up w' = input_up w /\ input_down w' = input_down w
  /\ raf_pending w' = raf_pending w /\ raf_next w' = raf_next w
  /\ lastTime w' = lastTime w /\ rafId w' = rafId w.
Proof. cbv zeta. destruct d; repeat split. Qed.

Lemma onScore_paddles d w :
  player_y (onScore options d w) = player_y w
  /\ ai_y (onScore options d w) = ai_y w.
Proof.
  unfold onScore.
  destruct (_ || _); [split; reflexivity |].
  cbv zeta. split; reflexivity.
Qed.

Lemma checkGoal_paddles w :
  player_y (checkGoal options w) = player_y w
  /\ ai_y (checkGoal options w) = ai_y w.
Proof.
  unfold checkGoal. cbv zeta.
  destruct (_ <? _); [| destruct (_ <? _); [| split; reflexivity]];
    match goal with
    | |- context [onScore options ?d ?w'] =>
        destruct (onScore_paddles d w') as [-> ->]
    end; split; reflexivity.
Qed.

Lemma hitPlayer_paddles w :
  player_y (hitPlayer options w) = player_y w
  /\ ai_y (hitPlayer options w) = ai_y w.
Proof. unfold hitPlayer. destruct (hitsPlayer w); split; reflexivity. Qed.

Lemma hitAi_paddles w :
  player_y (hitAi options w) = player_y w
  /\ ai_y (hitAi options w) = ai_y w.
Proof. unfold hitAi. destruct (hitsAi w); split; reflexivity. Qed.

Lemma moveBall_paddles w :
  player_y (moveBall w) = player_y w /\ ai_y (moveBall w) = ai_y w.
Proof.
  unfold moveBall. cbv zeta.
  destruct (_ <=? _); destruct (_ <=? _); split; reflexivity.
Qed.

Lemma movePaddles_player (w : World) :
  player_y (movePaddles options w)
  = clamp (player_y w + playerVelocity options w) 0 (HEIGHT - PADDLE_HEIGHT).
Proof. reflexivity. Qed.

Lemma movePaddles_ai (w : World) :
  ai_y (movePaddles options w)
  = clamp (ai_y w
           + clamp (ball_y w - PADDLE_HEIGHT / 2 - ai_y w)
               (- aiSpeed_of options w) (aiSpeed_of options w))
      0 (HEIGHT - PADDLE_HEIGHT).
Proof. reflexivity. Qed.

(** Reading the clock changes the count of reads and nothing else. *)
Lemma performance_now_state (w : World) :
  state (snd (performance_now w)) = state w.
Proof. reflexivity. Qed.

(** After a tick the paddles are where [movePaddles] put them. *)
Lemma tick_paddles w :
  player_y (tick options w) = player_y (movePaddles options w)
  /\ ai_y (tick options w) = ai_y (movePaddles options w).
Proof.
  unfold tick.
  destruct (checkGoal_paddles
              (hitAi options (hitPlayer options
                 (moveBall (movePaddles options w))))) as [-> ->].
  destruct (hitAi_paddles
              (hitPlayer options (moveBall (movePaddles options w))))
    as [-> ->].
  destruct (hitPlayer_paddles (moveBall (movePaddles options w))) as [-> ->].
  apply moveBall_paddles.
Qed.

(** A tick that is neither stopped nor paused is [tick], run after the one
    reading of the clock. *)
Lemma update_live (dt : R) (w : World) :
  running w = true ->
  ~ clock w (clock_reads w) < pausedUntil w ->
  update options dt w = tick options (snd (performance_now w)).
Proof.
  intros Hrun Hpause. rewrite update_phases, Hrun. cbn.
  rewrite Rltb_false by lra. reflexivity.
Qed.

(** *** The claims about one call of [update] *)

(** C4.  When [running] is false, or the clock reads strictly less than
    [pausedUntil], [update] changes nothing of the game state (ball
    position and velocity, both paddles, and every other field) and
    nothing of the scores. *)
Theorem update_frozen (dt : R) (w : World) :
  running w = false \/ clock w (clock_reads w) < pausedUntil w ->
  state (update options dt w) = state w
  /\ deref (scores w) (update options dt w) = deref (scores w) w.
Proof.
  intros H. rewrite update_phases.
  destruct (running w) eqn:Hrun; cbn.
  - destruct H as [H | H]; [discriminate |].
    rewrite Rltb_true by exact H. split; reflexivity.
  - split; reflexivity.
Qed.

(** [update] never reads its argument. *)
Lemma update_any_dt (dt1 dt2 : R) (w : World) :
  update options dt1 w = update options dt2 w.
Proof. reflexivity. Qed.





(** C7.  On a running, non-paused tick with both [input.up] and
    [input.down] set, the player velocity is
    [0 - PLAYER_SPEED + PLAYER_SPEED], that is zero: [player.y] becomes
    its own clamp into the field, and is unchanged when it was inside. *)
Theorem update_up_and_down_cancel (dt : R) (w : World) :
  running w = true ->
  ~ clock w (clock_reads w) < pausedUntil w ->
  input_up w = true ->
  input_down w = true ->
  playerVelocity options w = 0 - PLAYER_SPEED options + PLAYER_SPEED options
  /\ playerVelocity options w = 0
  /\ player_y (update options dt w)
     = clamp (player_y w) 0 (HEIGHT - PADDLE_HEIGHT)
  /\ (0 <= player_y w <= HEIGHT - PADDLE_HEIGHT ->
      player_y (update options dt w) = player_y w).
Proof.
  intros Hrun Hpause Hup Hdown.
  assert (Hv : playerVelocity options w
               = 0 - PLAYER_SPEED options + PLAYER_SPEED options).
  { unfold playerVelocity. rewrite Hup, Hdown. reflexivity. }
  assert (Hy : player_y (update options dt w)
               = clamp (player_y w) 0 (HEIGHT - PADDLE_HEIGHT)).
  { rewrite (update_live dt w Hrun Hpause).
    destruct (tick_paddles (snd (performance_now w))) as [-> _].
    rewrite movePaddles_player.
    change (playerVelocity options (snd (performance_now w)))
      with (playerVelocity options w).
    rewrite Hv, performance_now_state. f_equal. lra. }
  repeat split.
  - exact Hv.
  - rewrite Hv. lra.
  - exact Hy.
  - intros Hin. rewrite Hy. apply clamp_id. exact Hin.
Qed.

(** *** Goals *)

Lemma moveBall_x (w : World) :
  ball_x (moveBall w) = ball_x w + ball_vx w
  /\ ball_vx (moveBall w) = ball_vx w.
Proof.
  unfold moveBall. cbv zeta.
  destruct (_ <=? _); destruct (_ <=? _); split; reflexivity.
Qed.

Lemma moveBall_frame (w : World) :
  running (moveBall w) = running w
  /\ pausedUntil (moveBall w) = pausedUntil w
  /\ scores (moveBall w) = scores w
  /\ cells (moveBall w) = cells w
  /\ clock (moveBall w) = clock w
  /\ clock_reads (moveBall w) = clock_reads w
  /\ rand (moveBall w) = rand w
  /\ rand_reads (moveBall w) = rand_reads w.
Proof.
  unfold moveBall. cbv zeta.
  destruct (_ <=? _); destruct (_ <=? _); repeat split.
Qed.

(** A ball whose centre is off the field to the left or to the right is
    outside the band of either paddle. *)
Lemma hitPlayer_off (w : World) :
  ball_x w < - BALL_RADIUS \/ ball_x w > WIDTH + BALL_RADIUS ->
  hitPlayer options w = w.
Proof.
  intros H. unfold hitPlayer, hitsPlayer.
  cmp; cbn [andb]; try reflexivity; exfalso; consts; lra.
Qed.

Lemma hitAi_off (w : World) :
  ball_x w < - BALL_RADIUS \/ ball_x w > WIDTH + BALL_RADIUS ->
  hitAi options w = w.
Proof.
  intros H. unfold hitAi, hitsAi.
  cmp; cbn [andb]; try reflexivity; exfalso; consts; lra.
Qed.

(** The two ways [onScore] ends. *)
Lemma onScore_win (d : R) (w : World) :
  WIN_SCORE options <= IZR (player (deref (scores w) w))
  \/ WIN_SCORE options <= IZR (ai (deref (scores w) w)) ->
  onScore options d w
  = set_overlay
      (if (player (deref (scores w) w) >? ai (deref (scores w) w))%Z
       then YouWin else AiWins)
      (set_running false w).
Proof.
  intros H. unfold onScore.
  destruct H as [H | H].
  - rewrite (Rleb_true _ _ H). reflexivity.
  - rewrite (Rleb_true _ _ H), orb_true_r. reflexivity.
Qed.

Lemma onScore_serve (d : R) (w : World) :
  IZR (player (deref (scores w) w)) < WIN_SCORE options ->
  IZR (ai (deref (scores w) w)) < WIN_SCORE options ->
  onScore options d w
  = resetBall options (Some d)
      (set_pausedUntil (clock w (clock_reads w) + GOAL_PAUSE_MS)
         (snd (performance_now w))).
Proof.
  intros Hp Ha. unfold onScore.
  rewrite (Rleb_false _ _ Hp), (Rleb_false _ _ Ha). reflexivity.
Qed.

Lemma onScore_handles (d : R) (sc : Scores) (w0 w : World) :
  running w = true ->
  deref (scores w) w = sc ->
  ball_x w = ball_x w0 + ball_vx w0 ->
  ball_vx w = ball_vx w0 ->
  pausedUntil w = pausedUntil w0 ->
  clock w = clock w0 ->
  clock_reads w = S (clock_reads w0) ->
  rand w = rand w0 ->
  rand_reads w = rand_reads w0 ->
  goal_handled options d sc w0 (onScore options d w).
Proof.
  intros Hrun Hsc Hx Hvx Hpu Hclk Hreads Hrand Hrreads.
  unfold goal_handled. split; [| split].
  - unfold onScore. destruct (_ || _); cbn; exact Hsc.
  - intros Hwin. rewrite onScore_win by (rewrite Hsc; exact Hwin).
    cbn. auto.
  - intros [Hp Ha]. rewrite onScore_serve by (rewrite Hsc; assumption).
    cbn. rewrite Hrun, Hclk, Hreads, Hrand, Hrreads.
    repeat (split; [reflexivity |]).
    intros Hd.
    replace (d * (d * BALL_SPEED_INITIAL options))
      with (d * d * BALL_SPEED_INITIAL options) by ring.
    rewrite Hd.
    split; [intros Hspeed; lra | split; [| intros Hspeed; lra]].
    intros Hspeed. rewrite Hspeed. split; field.
Qed.

(** The abscissa [checkGoal] tests is off the field exactly when the ball
    was carried off it: a paddle hit puts the ball back beside the
    paddle. *)
Lemma tested_x (w : World) :
  let w1 :=
    hitAi options (hitPlayer options (moveBall (movePaddles options w))) in
  (ball_x w1 < - BALL_RADIUS <-> ball_x w + ball_vx w < - BALL_RADIUS)
  /\ (ball_x w1 > WIDTH + BALL_RADIUS
      <-> ball_x w + ball_vx w > WIDTH + BALL_RADIUS).
Proof.
  intros w1.
  destruct (moveBall_x (movePaddles options w)) as [Hx _].
  change (ball_x (movePaddles options w) + ball_vx (movePaddles options w))
    with (ball_x w + ball_vx w) in Hx.
  revert w1 Hx. generalize (moveBall (movePaddles options w)). intros w0.
  intros w1 Hx. rewrite <- Hx. clear Hx. unfold w1. clear w1.
  unfold hitPlayer. destruct (hitsPlayer w0) eqn:Hp.
  - unfold hitsPlayer in Hp.
    apply andb_prop in Hp. destruct Hp as [Hp _].
    apply andb_prop in Hp. destruct Hp as [Hp _].
    apply andb_prop in Hp. destruct Hp as [Hp1 Hp2].
    destruct (Rleb_spec (ball_x w0 - BALL_RADIUS) (PLAYER_X + PADDLE_WIDTH));
      [| discriminate].
    destruct (Rleb_spec PLAYER_X (ball_x w0 - BALL_RADIUS)); [| discriminate].
    cbv zeta.
    match goal with
    | |- context [hitAi options ?u] =>
        assert (Hu : ball_x u = PLAYER_X + PADDLE_WIDTH + BALL_RADIUS)
          by reflexivity;
        generalize dependent u
    end.
    intros u Hu. unfold hitAi. destruct (hitsAi u) eqn:Ha.
    + unfold hitsAi in Ha. rewrite Hu in Ha. exfalso.
      rewrite (Rleb_false AI_X) in Ha by (consts; lra). discriminate.
    + rewrite Hu. consts. lra.
  - unfold hitAi. destruct (hitsAi w0) eqn:Ha.
    + unfold hitsAi in Ha.
      apply andb_prop in Ha. destruct Ha as [Ha _].
      apply andb_prop in Ha. destruct Ha as [Ha _].
      apply andb_prop in Ha. destruct Ha as [Ha1 Ha2].
      destruct (Rleb_spec AI_X (ball_x w0 + BALL_RADIUS)); [| discriminate].
      destruct (Rleb_spec (ball_x w0 + BALL_RADIUS) (AI_X + PADDLE_WIDTH));
        [| discriminate].
      cbv zeta.
      change (ball_x (reflectFromPaddle options
                        (ai_y (set_ball_x (AI_X - BALL_RADIUS) w0))
                        (set_ball_x (AI_X - BALL_RADIUS) w0)))
        with (AI_X - BALL_RADIUS).
      consts. lra.
    + tauto.
Qed.

(** C1.  On a running, non-paused tick that takes the ball's centre left of
    [- BALL_RADIUS] (by [tested_x], exactly the ticks in which the test of
    line 312 succeeds), [scores.ai] grows by exactly one and
    [scores.player] stays; then, if either score has reached [WIN_SCORE],
    [running] becomes false and the ball stays where it went (it is not
    recentred, and no pause is set), and otherwise [pausedUntil] is the
    clock read in [onScore] plus [GOAL_PAUSE_MS] and the ball is served
    from the centre with a horizontal velocity of -1 times
    [BALL_SPEED_INITIAL]: toward the side that conceded when that speed is
    positive, with no velocity at all when it is zero, and toward the side
    that scored when it is negative.  The same holds on the right, beyond
    [WIDTH + BALL_RADIUS], for [scores.player] and a horizontal velocity
    of 1 times [BALL_SPEED_INITIAL]. *)
Theorem update_goal (dt : R) (w : World) :
  running w = true ->
  ~ clock w (clock_reads w) < pausedUntil w ->
  let p := player (deref (scores w) w) in
  let a := ai (deref (scores w) w) in
  (ball_x w + ball_vx w < - BALL_RADIUS ->
   goal_handled options (-1) (mkScores p (a + 1)) w (update options dt w))
  /\ (ball_x w + ball_vx w > WIDTH + BALL_RADIUS ->
      goal_handled options 1 (mkScores (p + 1) a) w (update options dt w)).
Proof.
  intros Hrun Hpause p a.
  rewrite (update_live dt w Hrun Hpause). unfold tick.
  set (w1 := moveBall (movePaddles options (snd (performance_now w)))).
  destruct (moveBall_x (movePaddles options (snd (performance_now w))))
    as [Hx Hvx].
  destruct (moveBall_frame (movePaddles options (snd (performance_now w))))
    as (Hr & Hpu & Hsc & Hcells & Hclk & Hreads & Hrand & Hrreads).
  change (ball_x w1 = ball_x w + ball_vx w) in Hx.
  change (ball_vx w1 = ball_vx w) in Hvx.
  change (running w1 = running w) in Hr.
  change (pausedUntil w1 = pausedUntil w) in Hpu.
  change (scores w1 = scores w) in Hsc.
  change (cells w1 = cells w) in Hcells.
  change (clock w1 = clock w) in Hclk.
  change (clock_reads w1 = S (clock_reads w)) in Hreads.
  change (rand w1 = rand w) in Hrand.
  change (rand_reads w1 = rand_reads w) in Hrreads.
  split; intros Hout.
  - rewrite hitPlayer_off, hitAi_off by (left; lra).
    unfold checkGoal. rewrite Rltb_true by lra. cbv zeta.
    apply onScore_handles; cbn; try assumption; try congruence.
    unfold deref. cbn. rewrite Hsc, Hcells, Nat.eqb_refl. reflexivity.
  - rewrite hitPlayer_off, hitAi_off by (right; lra).
    unfold checkGoal.
    rewrite Rltb_false by (consts; lra).
    rewrite Rltb_true by lra. cbv zeta.
    apply onScore_handles; cbn; try assumption; try congruence.
    unfold deref. cbn. rewrite Hsc, Hcells, Nat.eqb_refl. reflexivity.
Qed.

(** *** The speed after a paddle hit *)

Lemma Math_hypot_nonneg (a b : R) : 0 <= Math_hypot a b.
Proof. apply sqrt_pos. Qed.

Lemma Math_hypot_sqr (a b : R) :
  Math_hypot a b * Math_hypot a b = a * a + b * b.
Proof. unfold Math_hypot. apply sqrt_def. nra. Qed.

Lemma Math_hypot_flip (a b : R) : Math_hypot (a * -1) b = Math_hypot a b.
Proof. unfold Math_hypot. f_equal. ring. Qed.

(** [Math.sign(v) || 1] is 1 or -1. *)
Lemma direction_sqr (v : R) :
  or_else (Math_sign v) 1 * or_else (Math_sign v) 1 = 1.
Proof.
  unfold or_else, Math_sign.
  cmp; destruct (Req_dec_T _ 0); lra.
Qed.

(** Scaling a vector whose first component is at least 1 long to the
    length [s], the way lines 252-254 do it. *)
Lemma renormalized (vx vy s : R) :
  1 <= vx * vx ->
  let norm := or_else (Math_hypot vx vy) 1 in
  Math_hypot (vx / norm * s) (vy / norm * s) = Rabs s.
Proof.
  intros Hvx norm.
  pose proof (Math_hypot_nonneg vx vy) as Hpos.
  pose proof (Math_hypot_sqr vx vy) as Hsqr.
  assert (Hn : norm = Math_hypot vx vy).
  { unfold norm, or_else. destruct (Req_dec_T _ 0) as [E | E].
    - rewrite E in Hsqr. nra.
    - reflexivity. }
  assert (Hn0 : norm <> 0).
  { rewrite Hn. intros E. rewrite E in Hsqr. nra. }
  unfold Math_hypot at 1.
  replace (vx / norm * s * (vx / norm * s) + vy / norm * s * (vy / norm * s))
    with (Rsqr s * ((vx * vx + vy * vy) / (norm * norm)))
    by (unfold Rsqr; field; exact Hn0).
  rewrite <- Hsqr, <- Hn.
  replace (norm * norm / (norm * norm)) with 1 by (field; exact Hn0).
  rewrite Rmult_1_r. apply sqrt_Rsqr_abs.
Qed.

(** After [reflectFromPaddle] the ball moves at the absolute value of the
    computed speed. *)
Lemma reflected_speed_abs (paddleY : R) (w : World) :
  let w' := reflectFromPaddle options paddleY w in
  Math_hypot (ball_vx w') (ball_vy w') = Rabs (speedAfterHit options w).
Proof.
  cbv zeta. unfold reflectFromPaddle. cbv zeta.
  cbn [ball_vx ball_vy ball_y state set_ball_vx set_ball_vy with_state].
  unfold speedAfterHit. rewrite Math_hypot_flip.
  apply renormalized.
  match goal with
  | |- 1 <= ?d * sqrt ?m * (?d * sqrt ?m) =>
      replace (d * sqrt m * (d * sqrt m))
        with (d * d * (sqrt m * sqrt m)) by ring;
      rewrite direction_sqr, sqrt_def
  end.
  - rewrite Rmult_1_l. apply Rmax_r.
  - apply Rle_trans with 1; [lra | apply Rmax_r].
Qed.

(** C2, as amended.  After [reflectFromPaddle], whatever the velocity and
    the paddle position, the hypot of the new velocity is the absolute
    value of [min (previousSpeed + BALL_SPEED_STEP) BALL_SPEED_MAX], where
    [previousSpeed] is the hypot of the velocity before the hit; it is
    that minimum itself whenever the minimum is not negative, as it is
    when neither [BALL_SPEED_STEP] nor [BALL_SPEED_MAX] is. *)
Theorem reflectFromPaddle_speed (paddleY : R) (w : World) :
  let previousSpeed := Math_hypot (ball_vx w) (ball_vy w) in
  let speed :=
    Rmin (previousSpeed + BALL_SPEED_STEP options) (BALL_SPEED_MAX options) in
  let w' := reflectFromPaddle options paddleY w in
  Math_hypot (ball_vx w') (ball_vy w') = Rabs speed
  /\ (0 <= speed -> Math_hypot (ball_vx w') (ball_vy w') = speed)
  /\ (0 <= BALL_SPEED_STEP options -> 0 <= BALL_SPEED_MAX options ->
      0 <= speed).
Proof.
  intros previousSpeed speed w'.
  pose proof (reflected_speed_abs paddleY w) as H.
  change (Math_hypot (ball_vx w') (ball_vy w') = Rabs speed) in H.
  split; [exact H | split].
  - intros Hs. rewrite H. apply Rabs_right. lra.
  - intros Hstep Hmax. unfold speed.
    pose proof (Math_hypot_nonneg (ball_vx w) (ball_vy w)).
    apply Rmin_glb; [unfold previousSpeed; lra | exact Hmax].
Qed.

(** *** What every operation preserves *)

Lemma sound_step_refl (w : World) : sound_step w w.
Proof.
  split; [split; [| split] |]; auto.
Qed.

Lemma sound_step_trans (w1 w2 w3 : World) :
  sound_step w1 w2 -> sound_step w2 w3 -> sound_step w1 w3.
Proof.
  intros [(Hs1 & Hn1 & Hc1) Hp1] [(Hs2 & Hn2 & Hc2) Hp2].
  split; [split; [congruence | split] | auto].
  - apply Nat.le_trans with (next_loc w2); assumption.
  - intros l Hne Hlt. rewrite Hc2, Hc1; auto.
    + congruence.
    + apply Nat.lt_le_trans with (next_loc w1); assumption.
Qed.

(** An operation that leaves paddles and store alone. *)
Lemma sound_step_same (w w' : World) :
  player_y w' = player_y w -> ai_y w' = ai_y w ->
  scores w' = scores w -> next_loc w' = next_loc w -> cells w' = cells w ->
  sound_step w w'.
Proof.
  intros Hp Ha Hs Hn Hc. split; [split; [| split] |].
  - exact Hs.
  - rewrite Hn. apply Nat.le_refl.
  - intros l _ _. rewrite Hc. reflexivity.
  - unfold paddles_in_field. rewrite Hp, Ha. auto.
Qed.

(** Assigning to the game's own score object. *)
Lemma sound_step_assign (f : Scores -> Scores) (w : World) :
  sound_step w (assign (scores w) f w).
Proof.
  split; [split; [| split] |].
  - reflexivity.
  - apply Nat.le_refl.
  - intros l Hne _. cbn.
    destruct (Nat.eqb_spec l (scores w)); [contradiction | reflexivity].
  - auto.
Qed.

(** Allocating a new object. *)
Lemma sound_step_alloc (v : Scores) (w : World) :
  sound_step w (snd (alloc v w)).
Proof.
  split; [split; [| split] |].
  - reflexivity.
  - cbn. apply Nat.le_succ_diag_r.
  - intros l _ Hlt. cbn.
    destruct (Nat.eqb_spec l (next_loc w)) as [E | E]; [| reflexivity].
    rewrite E in Hlt. exfalso. exact (Nat.lt_irrefl _ Hlt).
  - auto.
Qed.

Ltac same := apply sound_step_same; reflexivity.

Lemma resetBall_sound (d : option R) (w : World) :
  sound_step w (resetBall options d w).
Proof. destruct d; same. Qed.

Lemma centred_paddles :
  0 <= HEIGHT / 2 - PADDLE_HEIGHT / 2 <= HEIGHT - PADDLE_HEIGHT.
Proof. consts. lra. Qed.

Lemma resetMatch_sound (w : World) : sound_step w (resetMatch options w).
Proof.
  split; [split; [| split] |].
  - reflexivity.
  - apply Nat.le_refl.
  - intros l Hne _. cbn.
    destruct (Nat.eqb_spec l (scores w)); [contradiction | reflexivity].
  - intros _. split; apply centred_paddles.
Qed.

Lemma onScore_sound (d : R) (w : World) : sound_step w (onScore options d w).
Proof. unfold onScore. destruct (_ || _); same. Qed.

Lemma movePaddles_sound (w : World) : sound_step w (movePaddles options w).
Proof.
  split; [split; [| split] |].
  - reflexivity.
  - apply Nat.le_refl.
  - reflexivity.
  - intros _. split.
    + rewrite movePaddles_player. apply clamp_bounds. consts. lra.
    + rewrite movePaddles_ai. apply clamp_bounds. consts. lra.
Qed.

Lemma moveBall_sound (w : World) : sound_step w (moveBall w).
Proof.
  unfold moveBall. cbv zeta. destruct (_ <=? _); destruct (_ <=? _); same.
Qed.

Lemma hitPlayer_sound (w : World) : sound_step w (hitPlayer options w).
Proof. unfold hitPlayer. destruct (hitsPlayer w); same. Qed.

Lemma hitAi_sound (w : World) : sound_step w (hitAi options w).
Proof. unfold hitAi. destruct (hitsAi w); same. Qed.

Lemma checkGoal_sound (w : World) : sound_step w (checkGoal options w).
Proof.
  unfold checkGoal. cbv zeta.
  destruct (_ <? _); [| destruct (_ <? _); [| apply sound_step_refl]];
    (eapply sound_step_trans; [apply sound_step_assign | apply onScore_sound]).
Qed.

Lemma tick_sound (w : World) : sound_step w (tick options w).
Proof.
  unfold tick.
  eapply sound_step_trans; [apply movePaddles_sound |].
  eapply sound_step_trans; [apply moveBall_sound |].
  eapply sound_step_trans; [apply hitPlayer_sound |].
  eapply sound_step_trans; [apply hitAi_sound |].
  apply checkGoal_sound.
Qed.

Lemma update_sound (dt : R) (w : World) : sound_step w (update options dt w).
Proof.
  rewrite update_phases.
  destruct (negb (running w)); [apply sound_step_refl |].
  cbn. destruct (_ <? _); [same |].
  eapply sound_step_trans; [| apply tick_sound]. same.
Qed.

Lemma render_sound (w : World) : sound_step w (render w).
Proof. unfold render. destruct (running w); same. Qed.

Lemma loop_sound (ts : R) (w : World) : sound_step w (loop options ts w).
Proof.
  unfold loop. cbv zeta.
  match goal with
  | |- context [update options ?dt ?w1] =>
      pose proof (update_sound dt w1) as Hu;
      pose proof (render_sound (update options dt w1)) as Hr;
      set (w2 := render (update options dt w1)) in *
  end.
  eapply sound_step_trans; [| eapply sound_step_trans; [exact Hu |]].
  - destruct (lastTime w); same.
  - eapply sound_step_trans; [exact Hr | same].
Qed.

Lemma iter_loop_sound (ts : R) (n : nat) (w : World) :
  sound_step w (Nat.iter n (loop options ts) w).
Proof.
  induction n as [| n IH]; cbn.
  - apply sound_step_refl.
  - eapply sound_step_trans; [exact IH | apply loop_sound].
Qed.

Lemma animationFrame_sound (ts : R) (w : World) :
  sound_step w (animationFrame options ts w).
Proof.
  unfold animationFrame. cbv zeta.
  eapply sound_step_trans; [| apply iter_loop_sound]. same.
Qed.

Lemma start_sound (w : World) : sound_step w (start w).
Proof. unfold start. destruct (running w); same. Qed.

Lemma stop_sound (w : World) : sound_step w (stop w).
Proof. unfold stop. cbv zeta. destruct (negb _); same. Qed.

Lemma startOrReset_sound (w : World) : sound_step w (startOrReset options w).
Proof.
  unfold startOrReset.
  destruct (_ && _); [apply start_sound | apply resetMatch_sound].
Qed.

Lemma onKeyDown_sound (code : string) (w : World) :
  sound_step w (onKeyDown options code w).
Proof.
  unfold onKeyDown. cbv zeta.
  match goal with
  | |- context [resetMatch options ?w1] =>
      pose proof (resetMatch_sound w1) as Hr; set (w2 := w1) in *
  end.
  assert (H2 : sound_step w w2).
  { unfold w2.
    destruct (String.eqb code "ArrowUp");
      destruct (String.eqb code "ArrowDown"); same. }
  destruct (_ && _); [eapply sound_step_trans; eassumption | exact H2].
Qed.

Lemma onKeyUp_sound (code : string) (w : World) :
  sound_step w (onKeyUp code w).
Proof.
  unfold onKeyUp. cbv zeta.
  destruct (String.eqb code "ArrowUp");
    destruct (String.eqb code "ArrowDown"); same.
Qed.

Lemma onClick_sound (w : World) : sound_step w (onClick options w).
Proof.
  unfold onClick.
  destruct (negb _); [apply startOrReset_sound | apply sound_step_refl].
Qed.

Lemma onTouchStart_sound (e : TouchEvent) (w : World) :
  sound_step w (onTouchStart e w).
Proof. unfold onTouchStart. destruct (touches e); same. Qed.

Lemma onTouchMove_sound (e : TouchEvent) (w : World) :
  sound_step w (onTouchMove e w).
Proof.
  unfold onTouchMove. destruct (touches e); [same |].
  cbv zeta. destruct (_ <? _); [destruct (_ <? _) |]; same.
Qed.

Lemma onTouchEnd_sound (e : TouchEvent) (rect : DOMRect) (w : World) :
  sound_step w (onTouchEnd options e rect w).
Proof.
  unfold onTouchEnd. cbv zeta.
  destruct (negb _); [| same].
  destruct (changedTouches e); [same |].
  destruct (_ && _); [| same].
  eapply sound_step_trans; [| apply startOrReset_sound]. same.
Qed.

Lemma getScores_sound (w : World) : sound_step w (snd (getScores w)).
Proof. apply sound_step_alloc. Qed.

Lemma handle_sound (ev : Event) (w : World) :
  sound_step w (handle options ev w).
Proof.
  destruct ev; cbn [handle].
  - apply onKeyDown_sound.
  - apply onKeyUp_sound.
  - apply onClick_sound.
  - apply onTouchStart_sound.
  - apply onTouchMove_sound.
  - apply onTouchEnd_sound.
  - apply animationFrame_sound.
  - apply start_sound.
  - apply stop_sound.
  - apply resetMatch_sound.
  - apply getScores_sound.
Qed.

Lemma run_sound (evs : list Event) (w : World) :
  sound_step w (run options evs w).
Proof.
  revert w. induction evs as [| ev evs IH]; intros w; cbn.
  - apply sound_step_refl.
  - eapply sound_step_trans; [apply handle_sound | apply IH].
Qed.

Lemma createPong_paddles (clk rnd : nat -> R) :
  paddles_in_field (createPong options clk rnd).
Proof. split; apply centred_paddles. Qed.

(** C3.  From the centred initial state, after any history of events
    (key and touch input in any order, frames, calls of the API), both
    [player.y] and [ai.y] are within [0, HEIGHT - PADDLE_HEIGHT], and they
    still are after one more [update]. *)
Theorem paddles_stay_in_field (clk rnd : nat -> R) (evs : list Event) :
  let w := run options evs (createPong options clk rnd) in
  paddles_in_field w
  /\ forall dt : R, paddles_in_field (update options dt w).
Proof.
  intros w.
  assert (Hw : paddles_in_field w).
  { apply (run_sound evs (createPong options clk rnd)).
    apply createPong_paddles. }
  split; [exact Hw |].
  intros dt. apply (update_sound dt w). exact Hw.
Qed.

(** *** Time stamps

    [loop] turns its time stamp into [dt] and into [lastTime]; the first
    is never read, and nothing of a tick reads the second. *)

(** Name the fields of [w] and run the straight-line code on them. *)
Ltac by_fields w :=
  destruct w as [[? ? ? ? ? ? ? ? ? ? ? ? ?] ? ? ? ? ? ? ? ? ? ? ?];
  cbv beta iota zeta delta
    [forget alloc getScores start stop cancelAnimationFrame resetMatch reset
     set_player set_ai fst snd
     movePaddles moveBall hitPlayer hitAi hitsPlayer hitsAi checkGoal onScore
     reflectFromPaddle resetBall randomSign randomRange Math_random
     performance_now requestAnimationFrame render deref assign
     playerVelocity aiSpeed_of
     with_state set_ball_x set_ball_y set_ball_vx set_ball_vy set_player_y
     set_ai_y set_running set_pausedUntil set_lastTime set_input_up
     set_input_down set_rafId set_touchStartY set_touchCurrentY set_overlay
     state cells next_loc touchStartY touchCurrentY overlay clock clock_reads
     rand rand_reads raf_next raf_pending
     ball_x ball_y ball_vx ball_vy player_y ai_y scores running pausedUntil
     lastTime input_up input_down rafId].

(** Both sides are the same tree of tests once every test is decided. *)
Ltac same_branches :=
  cmp; try contradiction;
  repeat match goal with
  | |- context [if ?c then _ else _] => destruct c
  end;
  reflexivity.

Lemma movePaddles_lastTime (v : option R) (w : World) :
  movePaddles options (set_lastTime v w)
  = set_lastTime v (movePaddles options w).
Proof. reflexivity. Qed.

Lemma moveBall_lastTime (v : option R) (w : World) :
  moveBall (set_lastTime v w) = set_lastTime v (moveBall w).
Proof. by_fields w. same_branches. Qed.

Lemma hitPlayer_lastTime (v : option R) (w : World) :
  hitPlayer options (set_lastTime v w) = set_lastTime v (hitPlayer options w).
Proof. by_fields w. same_branches. Qed.

Lemma hitAi_lastTime (v : option R) (w : World) :
  hitAi options (set_lastTime v w) = set_lastTime v (hitAi options w).
Proof. by_fields w. same_branches. Qed.

Lemma checkGoal_lastTime (v : option R) (w : World) :
  checkGoal options (set_lastTime v w) = set_lastTime v (checkGoal options w).
Proof. by_fields w. same_branches. Qed.

Lemma render_lastTime (v : option R) (w : World) :
  render (set_lastTime v w) = set_lastTime v (render w).
Proof. by_fields w. same_branches. Qed.

Lemma update_lastTime (dt : R) (v : option R) (w : World) :
  update options dt (set_lastTime v w) = set_lastTime v (update options dt w).
Proof.
  rewrite !update_phases.
  change (running (set_lastTime v w)) with (running w).
  destruct (negb (running w)); [reflexivity |].
  change (performance_now (set_lastTime v w))
    with (fst (performance_now w), set_lastTime v (snd (performance_now w))).
  cbv beta iota.
  change (performance_now w)
    with (fst (performance_now w), snd (performance_now w)).
  cbv beta iota.
  change (pausedUntil (set_lastTime v (snd (performance_now w))))
    with (pausedUntil (snd (performance_now w))).
  destruct (_ <? _); [reflexivity |].
  unfold tick.
  rewrite movePaddles_lastTime, moveBall_lastTime, hitPlayer_lastTime,
    hitAi_lastTime, checkGoal_lastTime.
  reflexivity.
Qed.

(** C5.  The elapsed-time argument has no influence: from one world (the
    same state, clock and random source) [update dt1] and [update dt2]
    give the same world.  So the time stamp of a frame reaches the state
    only as [lastTime]: the frames [loop ts1] and [loop ts2] from one
    world differ in that field and in nothing else. *)
Theorem update_ignores_dt (dt1 dt2 : R) (w : World) :
  update options dt1 w = update options dt2 w
  /\ forall ts1 ts2 : R,
       loop options ts2 w = set_lastTime (Some ts2) (loop options ts1 w).
Proof.
  split; [apply update_any_dt |].
  intros ts1 ts2. unfold loop. cbv zeta.
  rewrite (update_any_dt _ 0).
  rewrite (update_any_dt ((ts1 - _) / 1000) 0).
  assert (E : forall ts : R,
             set_lastTime (Some ts)
               match lastTime w with
               | Some _ => w
               | None => set_lastTime (Some ts) w
               end
             = set_lastTime (Some ts) w).
  { intros ts. destruct (lastTime w); reflexivity. }
  rewrite !E, !update_lastTime, !render_lastTime.
  reflexivity.
Qed.

(** *** The other score objects

    Nothing the game does depends on a score object other than its own. *)

Lemma blind_compose (f g : World -> World) :
  blind f -> blind g -> blind (fun w => g (f w)).
Proof.
  intros Hf Hg w. cbv beta.
  rewrite (Hg (f w)), (Hf w), <- (Hg (f (forget w))). reflexivity.
Qed.

Lemma blind_movePaddles : blind (movePaddles options).
Proof. intros w. by_fields w. same_branches. Qed.
Lemma blind_moveBall : blind moveBall.
Proof. intros w. by_fields w. same_branches. Qed.
Lemma blind_hitPlayer : blind (hitPlayer options).
Proof. intros w. by_fields w. same_branches. Qed.
Lemma blind_hitAi : blind (hitAi options).
Proof. intros w. by_fields w. same_branches. Qed.
Lemma blind_checkGoal : blind (checkGoal options).
Proof. intros w. by_fields w. same_branches. Qed.
Lemma blind_render : blind render.
Proof. intros w. by_fields w. same_branches. Qed.
Lemma blind_start : blind start.
Proof. intros w. by_fields w. same_branches. Qed.
Lemma blind_stop : blind stop.
Proof. intros w. by_fields w. same_branches. Qed.
Lemma blind_resetMatch : blind (resetMatch options).
Proof. intros w. by_fields w. same_branches. Qed.
Lemma blind_startOrReset : blind (startOrReset options).
Proof.
  intros w. unfold startOrReset.
  change (deref (scores (forget w)) (forget w)) with (deref (scores w) w).
  destruct (_ && _); [apply blind_start | apply blind_resetMatch].
Qed.
Lemma blind_getScores : blind (fun w => snd (getScores w)).
Proof. intros w. reflexivity. Qed.

Lemma blind_tick : blind (tick options).
Proof.
  apply (blind_compose
           (fun w => hitAi options (hitPlayer options
                       (moveBall (movePaddles options w))))
           (checkGoal options)); [| apply blind_checkGoal].
  apply (blind_compose
           (fun w => hitPlayer options (moveBall (movePaddles options w)))
           (hitAi options)); [| apply blind_hitAi].
  apply (blind_compose (fun w => moveBall (movePaddles options w))
           (hitPlayer options)); [| apply blind_hitPlayer].
  apply (blind_compose (movePaddles options) moveBall);
    [apply blind_movePaddles | apply blind_moveBall].
Qed.

Lemma blind_update (dt : R) : blind (update options dt).
Proof.
  intros w. rewrite !update_phases.
  change (running (forget w)) with (running w).
  destruct (negb (running w)); [reflexivity |].
  change (performance_now (forget w))
    with (fst (performance_now w), forget (snd (performance_now w))).
  change (performance_now w)
    with (fst (performance_now w), snd (performance_now w)).
  cbv beta iota.
  change (pausedUntil (forget (snd (performance_now w))))
    with (pausedUntil (snd (performance_now w))).
  destruct (_ <? _); [reflexivity | apply blind_tick].
Qed.

Lemma blind_loop (ts : R) : blind (loop options ts).
Proof.
  intros w. unfold loop. cbv zeta.
  change (lastTime (forget w)) with (lastTime w).
  rewrite (update_any_dt _ 0).
  rewrite (update_any_dt (_ / 1000) 0).
  assert (E : forall u : World,
             set_lastTime (Some ts)
               match lastTime w with
               | Some _ => u
               | None => set_lastTime (Some ts) u
               end
             = set_lastTime (Some ts) u).
  { intros u. destruct (lastTime w); reflexivity. }
  rewrite !E.
  change (set_lastTime (Some ts) (forget w))
    with (forget (set_lastTime (Some ts) w)).
  generalize (set_lastTime (Some ts) w). intros u.
  pose proof (blind_update 0 u) as Hu.
  pose proof (blind_render (update options 0 u)) as Hr.
  pose proof (blind_render (update options 0 (forget u))) as Hr'.
  pose proof (blind_render (forget (update options 0 u))) as Hr''.
  set (a := render (update options 0 u)) in *.
  set (b := render (update options 0 (forget u))) in *.
  assert (Hab : forget a = forget b).
  { rewrite Hr, Hr', Hu. reflexivity. }
  clearbody a b. clear - Hab.
  destruct a as [sa ca na ta ua oa ka ra da ea fa pa].
  destruct b as [sb cb nb tb ub ob kb rb db eb fb pb].
  unfold forget in Hab. cbn in Hab.
  injection Hab as -> Hc -> -> -> -> -> -> -> -> -> ->.
  unfold forget. cbn. rewrite Hc. reflexivity.
Qed.

Lemma blind_iter (f : World -> World) (n : nat) :
  blind f -> blind (Nat.iter n f).
Proof.
  intros Hf. induction n as [| n IH].
  - intros w. reflexivity.
  - apply (blind_compose (Nat.iter n f) f); assumption.
Qed.

Lemma blind_animationFrame (ts : R) : blind (animationFrame options ts).
Proof.
  intros w. unfold animationFrame. cbv zeta.
  change (raf_pending (forget w)) with (raf_pending w).
  apply (blind_iter (loop options ts) (List.length (raf_pending w))
           (blind_loop ts)).
Qed.

Lemma blind_onClick : blind (onClick options).
Proof.
  intros w. unfold onClick.
  change (running (forget w)) with (running w).
  destruct (negb (running w)); [apply blind_startOrReset | reflexivity].
Qed.

Lemma blind_when (c : World -> bool) (f : World -> World) :
  (forall w : World, c (forget w) = c w) ->
  blind f -> blind (fun w => if c w then f w else w).
Proof.
  intros Hc Hf w. cbv beta. rewrite Hc.
  destruct (c w); [apply Hf | reflexivity].
Qed.

Lemma blind_onKeyDown (code : string) : blind (onKeyDown options code).
Proof.
  apply (blind_compose
           (fun w =>
              let w :=
                if String.eqb code "ArrowUp" then set_input_up true w else w in
              if String.eqb code "ArrowDown" then set_input_down true w else w)
           (fun w =>
              if String.eqb code "Enter" && negb (running w)
              then resetMatch options w else w)).
  - intros w. cbv zeta.
    destruct (String.eqb code "ArrowUp");
      destruct (String.eqb code "ArrowDown"); reflexivity.
  - apply (blind_when
             (fun w => String.eqb code "Enter" && negb (running w))
             (resetMatch options)); [reflexivity | apply blind_resetMatch].
Qed.

Lemma blind_onKeyUp (code : string) : blind (onKeyUp code).
Proof.
  intros w. unfold onKeyUp. cbv zeta.
  destruct (String.eqb code "ArrowUp"); destruct (String.eqb code "ArrowDown");
    reflexivity.
Qed.

Lemma blind_onTouchStart (e : TouchEvent) : blind (onTouchStart e).
Proof.
  intros w. unfold onTouchStart. destruct (touches e); reflexivity.
Qed.

Lemma blind_onTouchMove (e : TouchEvent) : blind (onTouchMove e).
Proof.
  intros w. unfold onTouchMove. destruct (touches e); [reflexivity |].
  cbv zeta.
  change (touchStartY (set_touchCurrentY (clientY t) (forget w)))
    with (touchStartY (set_touchCurrentY (clientY t) w)).
  change (touchCurrentY (set_touchCurrentY (clientY t) (forget w)))
    with (touchCurrentY (set_touchCurrentY (clientY t) w)).
  destruct (_ <? _); [destruct (_ <? _) |]; reflexivity.
Qed.

Lemma blind_onTouchEnd (e : TouchEvent) (rect : DOMRect) :
  blind (onTouchEnd options e rect).
Proof.
  intros w. unfold onTouchEnd. cbv zeta.
  change (running (set_input_down false (set_input_up false (forget w))))
    with (running w).
  change (running (set_input_down false (set_input_up false w)))
    with (running w).
  destruct (negb (running w)); [| reflexivity].
  destruct (changedTouches e); [reflexivity |].
  destruct (_ && _); [| reflexivity].
  apply (blind_startOrReset (set_input_down false (set_input_up false w))).
Qed.

Lemma blind_handle (ev : Event) : blind (handle options ev).
Proof.
  destruct ev; cbn [handle].
  - apply blind_onKeyDown.
  - apply blind_onKeyUp.
  - apply blind_onClick.
  - apply blind_onTouchStart.
  - apply blind_onTouchMove.
  - apply blind_onTouchEnd.
  - apply blind_animationFrame.
  - apply blind_start.
  - apply blind_stop.
  - apply blind_resetMatch.
  - apply blind_getScores.
Qed.

Lemma blind_run (evs : list Event) : blind (run options evs).
Proof.
  induction evs as [| ev evs IH].
  - intros w. reflexivity.
  - apply (blind_compose (handle options ev) (run options evs));
      [apply blind_handle | exact IH].
Qed.

(** Assigning to an object that is not the game's own is forgotten. *)
Lemma forget_assign_other (l : loc) (f : Scores -> Scores) (w : World) :
  l <> scores w -> forget (assign l f w) = forget w.
Proof.
  intros Hne. unfold forget, assign. cbn.
  destruct (Nat.eqb_spec (scores w) l) as [E | E];
    [exfalso; apply Hne; symmetry; exact E | reflexivity].
Qed.

(** What [forget] keeps: the state and the game's own scores. *)
Lemma forget_keeps (a b : World) :
  forget a = forget b ->
  state a = state b /\ deref (scores a) a = deref (scores b) b.
Proof.
  intros H. split.
  - exact (f_equal state H).
  - exact (f_equal (fun w => cells w 0%nat) H).
Qed.

(** *** The public surface *)

Lemma resetMatch_scores (w : World) :
  deref (scores (resetMatch options w)) (resetMatch options w) = mkScores 0 0.
Proof.
  unfold deref. cbn. rewrite Nat.eqb_refl. reflexivity.
Qed.

(** What [getScores] hands out: a new reference, holding the scores of the
    moment, and the game's own object untouched. *)
Lemma getScores_copy (w : World) :
  let l := fst (getScores w) in
  let w1 := snd (getScores w) in
  l = next_loc w
  /\ deref l w1 = deref (scores w) w
  /\ scores w1 = scores w
  /\ ((scores w < next_loc w)%nat ->
      deref (scores w1) w1 = deref (scores w) w).
Proof.
  cbv zeta. unfold deref. cbn. rewrite Nat.eqb_refl.
  repeat split.
  intros Hlt. destruct (Nat.eqb_spec (scores w) (next_loc w)) as [E | E].
  - rewrite E in Hlt. exfalso. exact (Nat.lt_irrefl _ Hlt).
  - reflexivity.
Qed.

(** In every world the game can reach, its score object exists. *)
Lemma run_scores_allocated (clk rnd : nat -> R) (evs : list Event) :
  let w := run options evs (createPong options clk rnd) in
  (scores w < next_loc w)%nat.
Proof.
  intros w.
  destruct (run_sound evs (createPong options clk rnd)) as [(Hs & Hn & _) _].
  fold w in Hs, Hn. rewrite Hs. cbn in Hn |- *.
  apply Nat.lt_le_trans with 1%nat; [apply Nat.lt_0_1 | exact Hn].
Qed.

(** C9.  [getScores()] answers [{player: 0, ai: 0}] right after
    construction and right after any [reset()].  What it returns, in any
    world the game can reach, is a new object holding the scores of the
    moment: it is not the game's own object, and the call leaves the
    game's scores as they were.  Assigning to the returned object leaves
    them as they were too, and whatever happens next the game goes on as
    if the assignment had not been made, its state and its scores the
    same.  Nothing the game does afterwards (any history of events and
    calls) changes the returned object. *)
Theorem getScores_snapshot (clk rnd : nat -> R) (evs : list Event) :
  let w0 := createPong options clk rnd in
  let w := run options evs w0 in
  deref (fst (getScores w0)) (snd (getScores w0)) = mkScores 0 0
  /\ deref (fst (getScores (reset options w)))
       (snd (getScores (reset options w))) = mkScores 0 0
  /\ (let l := fst (getScores w) in
      let w1 := snd (getScores w) in
      l <> scores w1
      /\ deref l w1 = deref (scores w) w
      /\ deref (scores w1) w1 = deref (scores w) w
      /\ (forall f : Scores -> Scores,
           deref (scores w1) (assign l f w1) = deref (scores w1) w1)
      /\ (forall (f : Scores -> Scores) (evs' : list Event),
           let a := run options evs' (assign l f w1) in
           let b := run options evs' w1 in
           state a = state b /\ deref (scores a) a = deref (scores b) b)
      /\ (forall evs' : list Event,
           deref l (run options evs' w1) = deref l w1)).
Proof.
  intros w0 w. split; [reflexivity | split].
  - destruct (getScores_copy (reset options w)) as (_ & -> & _).
    apply resetMatch_scores.
  - intros l w1.
    pose proof (run_scores_allocated clk rnd evs) as Hlt.
    fold w0 in Hlt. fold w in Hlt. cbv zeta in Hlt.
    destruct (getScores_copy w) as (Hl & Hcopy & Hs & Hown).
    fold l in Hl, Hcopy. fold w1 in Hcopy, Hs, Hown.
    assert (Hne : l <> scores w1).
    { rewrite Hl, Hs. intros E. rewrite E in Hlt.
      exact (Nat.lt_irrefl _ Hlt). }
    split; [exact Hne | split; [exact Hcopy | split; [auto |]]].
    split; [| split].
    + intros f. unfold deref. cbn.
      destruct (Nat.eqb_spec (scores w) (next_loc w)) as [E | E];
        [rewrite E in Hlt; exfalso; exact (Nat.lt_irrefl _ Hlt) |].
      reflexivity.
    + intros f evs' a b. apply forget_keeps. unfold a, b.
      rewrite (blind_run evs' (assign l f w1)), (blind_run evs' w1).
      rewrite (forget_assign_other l f w1 Hne). reflexivity.
    + intros evs'.
      destruct (run_sound evs' w1) as [(_ & _ & Hkept) _].
      unfold deref. apply Hkept; [exact Hne |].
      rewrite Hl. cbn. apply Nat.lt_succ_diag_r.
Qed.

(** C10.  [reset()] leaves [running] true whatever it was, and requests no
    frame: the pending handles, the next handle and [rafId] are as before.
    A [start()] right after it therefore returns at its first line: the
    world is the one [reset()] left, [lastTime] included. *)
Theorem reset_then_start (w : World) :
  running (reset options w) = true
  /\ raf_pending (reset options w) = raf_pending w
  /\ raf_next (reset options w) = raf_next w
  /\ rafId (reset options w) = rafId w
  /\ lastTime (reset options w) = lastTime w
  /\ start (reset options w) = reset options w.
Proof.
  assert (Hrun : running (reset options w) = true) by reflexivity.
  split; [exact Hrun |].
  destruct (resetBall_frame None
              (set_ai_y (HEIGHT / 2 - PADDLE_HEIGHT / 2)
                 (set_player_y (HEIGHT / 2 - PADDLE_HEIGHT / 2)
                    (set_overlay NoText
                       (set_running true
                          (assign (scores w) (set_ai 0)
                             (assign (scores w) (set_player 0) w)))))))
    as (_ & _ & _ & _ & _ & _ & _ & _ & _ & Hp & Hn & Hl & Hr).
  split; [exact Hp | split; [exact Hn | split; [exact Hr | split]]].
  - exact Hl.
  - unfold start. rewrite Hrun. reflexivity.
Qed.

(** *** Touch *)

Lemma start_input (w : World) :
  input_up (start w) = input_up w /\ input_down (start w) = input_down w.
Proof. unfold start. destruct (running w); split; reflexivity. Qed.

Lemma startOrReset_input (w : World) :
  input_up (startOrReset options w) = input_up w
  /\ input_down (startOrReset options w) = input_down w.
Proof.
  unfold startOrReset.
  destruct (_ && _); [apply start_input | split; reflexivity].
Qed.

Lemma onTouchEnd_clears (e : TouchEvent) (rect : DOMRect) (w : World) :
  input_up (onTouchEnd options e rect w) = false
  /\ input_down (onTouchEnd options e rect w) = false.
Proof.
  unfold onTouchEnd. cbv zeta.
  destruct (negb _); [| split; reflexivity].
  destruct (changedTouches e); [split; reflexivity |].
  destruct (_ && _); [| split; reflexivity].
  match goal with
  | |- context [startOrReset options ?w1] =>
      destruct (startOrReset_input w1) as [-> ->]
  end.
  split; reflexivity.
Qed.

(** C8.  A move event whose first touch is more than [touchThreshold]
    (20) away, vertically, from where the gesture started sets exactly one
    flag: [up] (and clears [down]) when the touch is above the start,
    [down] (and clears [up]) when it is below.  The end of a gesture
    clears both flags, whatever they were.  In particular a gesture that
    starts at any height and moves 25 further down sets [down] and clears
    [up]. *)
Theorem touch_gesture (e : TouchEvent) (t : Touch) (rest : list Touch)
    (w : World) :
  touches e = t :: rest ->
  Rabs (clientY t - touchStartY w) > touchThreshold ->
  let w' := onTouchMove e w in
  (clientY t - touchStartY w < 0 ->
   input_up w' = true /\ input_down w' = false)
  /\ (clientY t - touchStartY w > 0 ->
      input_up w' = false /\ input_down w' = true)
  /\ (forall (e' : TouchEvent) (rect : DOMRect) (w0 : World),
        input_up (onTouchEnd options e' rect w0) = false
        /\ input_down (onTouchEnd options e' rect w0) = false)
  /\ (forall (x y0 : R) (others : list Touch),
        let began :=
          onTouchStart (mkTouchEvent (mkTouch x y0 :: others) []) w in
        let moved :=
          onTouchMove
            (mkTouchEvent (mkTouch x (y0 + 25) :: others) []) began in
        input_down moved = true /\ input_up moved = false).
Proof.
  intros Htouches Hfar w'.
  assert (Hw' : w' = (let w1 := set_touchCurrentY (clientY t) w in
                      if clientY t - touchStartY w <? 0
                      then set_input_down false (set_input_up true w1)
                      else set_input_down true (set_input_up false w1))).
  { unfold w', onTouchMove. rewrite Htouches. cbv zeta.
    change (touchCurrentY (set_touchCurrentY (clientY t) w)) with (clientY t).
    change (touchStartY (set_touchCurrentY (clientY t) w))
      with (touchStartY w).
    rewrite (Rltb_true _ _ Hfar). reflexivity. }
  split; [| split; [| split]].
  - intros Hneg. rewrite Hw'. cbv zeta.
    rewrite (Rltb_true _ _ Hneg). split; reflexivity.
  - intros Hposi. rewrite Hw'. cbv zeta.
    rewrite Rltb_false by lra. split; reflexivity.
  - intros e' rect w0. apply onTouchEnd_clears.
  - intros x y0 others began moved.
    unfold moved, began, onTouchMove, onTouchStart. cbn.
    assert (Hd : y0 + 25 - y0 = 25) by ring.
    rewrite Hd.
    rewrite (Rltb_true touchThreshold (Rabs 25))
      by (rewrite Rabs_right; consts; lra).
    rewrite (Rltb_false 25 0) by lra.
    split; reflexivity.
Qed.

End Properties.

(** ** The theorems at work on concrete worlds *)

Lemma Math_hypot_axis (a : R) : Math_hypot a 0 = Rabs a.
Proof.
  unfold Math_hypot.
  replace (a * a + 0 * 0) with (Rsqr a) by (unfold Rsqr; ring).
  apply sqrt_Rsqr_abs.
Qed.

(** The ball of a new game (velocity (4, 0)) meeting the centre of a
    paddle at 205: it comes back at (-4.3, 0). *)
Example centre_hit :
  let w' := reflectFromPaddle defaults 205 fresh_game in
  ball_vx w' = - (43 / 10) /\ ball_vy w' = 0.
Proof.
  cbv zeta. unfold reflectFromPaddle. cbv zeta.
  cbn [ball_vx ball_vy ball_y state set_ball_vx set_ball_vy with_state].
  change (ball_vx fresh_game) with 4.
  change (ball_vy fresh_game) with 0.
  change (ball_y fresh_game) with (HEIGHT / 2).
  change (BALL_SPEED_STEP defaults) with (3 / 10).
  change (BALL_SPEED_MAX defaults) with 10.
  replace (0 + (HEIGHT / 2 - (205 + PADDLE_HEIGHT / 2))
               / (PADDLE_HEIGHT / 2) * 2)
    with 0 by (consts; field).
  assert (Hspeed : Rmin (Math_hypot (4 * -1) 0 + 3 / 10) 10 = 43 / 10).
  { rewrite Math_hypot_axis, Rabs_left by lra. rewrite Rmin_left by lra. lra. }
  rewrite Hspeed.
  assert (Hdir : or_else (Math_sign (4 * -1)) 1 = -1).
  { unfold Math_sign. rewrite Rltb_false, Rltb_true by lra.
    unfold or_else. destruct (Req_dec_T (-1) 0); lra. }
  rewrite Hdir.
  assert (Hroot : sqrt (Rmax (43 / 10 * (43 / 10) - 0 * 0) 1) = 43 / 10).
  { rewrite Rmax_left by lra. apply sqrt_lem_1; lra. }
  rewrite Hroot.
  assert (Hnorm : or_else (Math_hypot (-1 * (43 / 10)) 0) 1 = 43 / 10).
  { rewrite Math_hypot_axis, Rabs_left by lra.
    unfold or_else. destruct (Req_dec_T _ 0); lra. }
  rewrite Hnorm. split; field.
Qed.

(** The store tells the game's own object from a copy: an assignment
    through the game's own reference does show in its scores. *)
Example own_reference_is_live :
  player (deref (scores fresh_game)
            (assign (scores fresh_game) (set_player 9) fresh_game)) = 9%Z.
Proof. reflexivity. Qed.

Lemma playing_live :
  running playing = true
  /\ ~ clock playing (clock_reads playing) < pausedUntil playing.
Proof. split; [reflexivity | cbn; unfold still; lra]. Qed.

Lemma update_goal_witness :
  running leaving_left = true
  /\ ~ clock leaving_left (clock_reads leaving_left)
       < pausedUntil leaving_left
  /\ ball_x leaving_left + ball_vx leaving_left < - BALL_RADIUS
  /\ goal_handled defaults (-1) (mkScores 0 1) leaving_left
       (update defaults 0 leaving_left).
Proof.
  (* one goal to nil is not yet a win: the ball is served to the left *)
  assert (H1 : running leaving_left = true) by reflexivity.
  assert (H2 : ~ clock leaving_left (clock_reads leaving_left)
                 < pausedUntil leaving_left) by (cbn; unfold still; lra).
  assert (H3 : ball_x leaving_left + ball_vx leaving_left < - BALL_RADIUS)
    by (cbn; consts; lra).
  split; [exact H1 | split; [exact H2 | split; [exact H3 |]]].
  exact (proj1 (update_goal defaults 0 leaving_left H1 H2) H3).
Defined.

Lemma update_frozen_witness :
  (running fresh_game = false
   \/ clock fresh_game (clock_reads fresh_game) < pausedUntil fresh_game)
  /\ state (update defaults 0 fresh_game) = state fresh_game
  /\ deref (scores fresh_game) (update defaults 0 fresh_game)
     = deref (scores fresh_game) fresh_game.
Proof.
  assert (H : running fresh_game = false
              \/ clock fresh_game (clock_reads fresh_game)
                 < pausedUntil fresh_game) by (left; reflexivity).
  split; [exact H | exact (update_frozen defaults 0 fresh_game H)].
Defined.


Lemma update_up_and_down_cancel_witness :
  running both_keys = true
  /\ ~ clock both_keys (clock_reads both_keys) < pausedUntil both_keys
  /\ input_up both_keys = true
  /\ input_down both_keys = true
  /\ playerVelocity defaults both_keys = 0
  /\ player_y (update defaults 0 both_keys) = player_y both_keys.
Proof.
  assert (H1 : running both_keys = true) by reflexivity.
  assert (H2 : ~ clock both_keys (clock_reads both_keys)
                 < pausedUntil both_keys) by (cbn; unfold still; lra).
  assert (H3 : input_up both_keys = true) by reflexivity.
  assert (H4 : input_down both_keys = true) by reflexivity.
  destruct (update_up_and_down_cancel defaults 0 both_keys H1 H2 H3 H4)
    as (_ & Hv & _ & Hy).
  repeat (split; [assumption |]).
  apply Hy. cbn. consts. lra.
Defined.

Lemma touch_gesture_witness :
  touches finger_moves = [mkTouch 0 25]
  /\ Rabs (clientY (mkTouch 0 25) - touchStartY finger_down) > touchThreshold
  /\ input_up (onTouchMove finger_moves finger_down) = false
  /\ input_down (onTouchMove finger_moves finger_down) = true.
Proof.
  assert (H1 : touches finger_moves = [mkTouch 0 25]) by reflexivity.
  assert (H2 : Rabs (clientY (mkTouch 0 25) - touchStartY finger_down)
               > touchThreshold).
  { cbn. rewrite Rabs_right; consts; lra. }
  destruct (touch_gesture defaults finger_moves (mkTouch 0 25) [] finger_down
              H1 H2) as (_ & Hdown & _).
  split; [exact H1 | split; [exact H2 |]].
  apply Hdown. cbn. lra.
Defined.

Lemma reflectFromPaddle_speed_witness :
  let w' := reflectFromPaddle defaults 205 fresh_game in
  0 <= Rmin (Math_hypot (ball_vx fresh_game) (ball_vy fresh_game)
             + BALL_SPEED_STEP defaults) (BALL_SPEED_MAX defaults)
  /\ Math_hypot (ball_vx w') (ball_vy w')
     = Rmin (Math_hypot (ball_vx fresh_game) (ball_vy fresh_game)
             + BALL_SPEED_STEP defaults) (BALL_SPEED_MAX defaults).
Proof.
  destruct (reflectFromPaddle_speed defaults 205 fresh_game)
    as (_ & Heq & Hpos).
  assert (H : 0 <= Rmin (Math_hypot (ball_vx fresh_game) (ball_vy fresh_game)
                         + BALL_SPEED_STEP defaults)
                        (BALL_SPEED_MAX defaults)).
  { apply Hpos; unfold BALL_SPEED_STEP, BALL_SPEED_MAX; cbn; lra. }
  split; [exact H | exact (Heq H)].
Defined.

(** C2 as stated fails.  With [ballSpeedMax: -1] and the other settings at
    their defaults, a hit of the ball of a new game (velocity (4, 0), at
    the height of the centre of a paddle at 205) leaves it with a velocity
    whose hypot is 1, while [min (previousSpeed + BALL_SPEED_STEP)
    BALL_SPEED_MAX] is -1. *)
Lemma reflectFromPaddle_speed_counterexample :
  let w := createPong negative_max still still in
  let w' := reflectFromPaddle negative_max 205 w in
  let claimed :=
    Rmin (Math_hypot (ball_vx w) (ball_vy w) + BALL_SPEED_STEP negative_max)
         (BALL_SPEED_MAX negative_max) in
  Math_hypot (ball_vx w') (ball_vy w') = 1
  /\ claimed = -1
  /\ Math_hypot (ball_vx w') (ball_vy w') <> claimed.
Proof.
  intros w w' claimed.
  assert (Hc : claimed = -1).
  { unfold claimed. apply Rmin_right.
    pose proof (Math_hypot_nonneg (ball_vx w) (ball_vy w)).
    unfold BALL_SPEED_STEP, BALL_SPEED_MAX.
    cbn [negative_max ballSpeedStep ballSpeedMax nullish]. lra. }
  assert (Hh : Math_hypot (ball_vx w') (ball_vy w') = 1).
  { unfold w'. rewrite (reflected_speed_abs negative_max 205 w).
    change (speedAfterHit negative_max w) with claimed.
    rewrite Hc, Rabs_left by lra. lra. }
  split; [exact Hh | split; [exact Hc |]].
  rewrite Hh, Hc. lra.
Qed.


(** C1 as stated fails.  With [ballSpeed: -4] and the other settings at
    their defaults, the ball leaves on the left: the AI scores, at one
    goal to nil the match goes on, and the ball is served from the centre
    with a horizontal velocity of -1 times -4, to the right, toward the
    AI that has just scored and not toward the player that conceded. *)
Lemma update_goal_counterexample :
  let w := leaving_left_backwards in
  let w' := update negative_ball 0 w in
  running w = true
  /\ ~ clock w (clock_reads w) < pausedUntil w
  /\ ball_x w + ball_vx w < - BALL_RADIUS
  /\ deref (scores w') w' = mkScores 0 1
  /\ running w' = true
  /\ ball_x w' = WIDTH / 2
  /\ ball_vx w' = 4
  /\ 0 < ball_vx w'.
Proof.
  intros w w'.
  assert (H1 : running w = true) by reflexivity.
  assert (H2 : ~ clock w (clock_reads w) < pausedUntil w)
    by (cbn; unfold still; lra).
  assert (H3 : ball_x w + ball_vx w < - BALL_RADIUS) by (cbn; consts; lra).
  repeat (split; [assumption |]).
  unfold w'. rewrite (update_live negative_ball 0 w H1 H2). unfold tick.
  destruct (moveBall_x (movePaddles negative_ball (snd (performance_now w))))
    as [Hx _].
  destruct (moveBall_frame
              (movePaddles negative_ball (snd (performance_now w))))
    as (Hr & _ & Hsc & Hcells & _).
  revert Hx Hr Hsc Hcells.
  generalize (moveBall (movePaddles negative_ball (snd (performance_now w)))).
  intros w1 Hx Hr Hsc Hcells.
  change (ball_x w1 = ball_x w + ball_vx w) in Hx.
  change (running w1 = true) in Hr.
  change (scores w1 = scores w) in Hsc.
  change (cells w1 = cells w) in Hcells.
  rewrite hitPlayer_off, hitAi_off by (left; lra).
  unfold checkGoal. rewrite Rltb_true by lra. cbv zeta.
  assert (Hd : deref (scores w1) w1 = mkScores 0 0).
  { unfold deref. rewrite Hsc, Hcells. reflexivity. }
  rewrite onScore_serve.
  - cbn. rewrite Hr. unfold deref. cbn. rewrite Nat.eqb_refl.
    fold (deref (scores w1) w1). rewrite Hd. cbn.
    unfold BALL_SPEED_INITIAL. cbn.
    repeat split; lra.
  - unfold deref. cbn. rewrite Nat.eqb_refl.
    fold (deref (scores w1) w1). rewrite Hd. cbn. lra.
  - unfold deref. cbn. rewrite Nat.eqb_refl.
    fold (deref (scores w1) w1). rewrite Hd. cbn. lra.
Qed.

(** ** Further properties of the closure *)

Section Coverage.

Variable options : PongOptions.

(** *** The ball between the walls, the scores above zero *)

Lemma deref_assign_own (f : Scores -> Scores) (w : World) :
  deref (scores w) (assign (scores w) f w) = f (deref (scores w) w).
Proof. unfold deref. cbn. rewrite Nat.eqb_refl. reflexivity. Qed.

Lemma kept_same (w w' : World) :
  ball_y w' = ball_y w ->
  deref (scores w') w' = deref (scores w) w ->
  well_kept w -> well_kept w'.
Proof.
  unfold well_kept, ball_between_walls, scores_not_negative.
  intros -> ->. auto.
Qed.

Ltac kept := apply kept_same; reflexivity.

Lemma centre_between_walls : BALL_RADIUS <= HEIGHT / 2 <= HEIGHT - BALL_RADIUS.
Proof. consts. lra. Qed.

Lemma resetBall_kept (d : option R) (w : World) :
  well_kept w -> well_kept (resetBall options d w).
Proof.
  intros [_ Hs]. split.
  - unfold ball_between_walls.
    destruct d; apply centre_between_walls.
  - destruct d; exact Hs.
Qed.

Lemma resetMatch_kept (w : World) :
  well_kept w -> well_kept (resetMatch options w).
Proof.
  intros _. split.
  - apply centre_between_walls.
  - unfold scores_not_negative.
    rewrite (resetMatch_scores options w). cbn. split; apply Z.le_refl.
Qed.

Lemma onScore_kept (d : R) (w : World) :
  well_kept w -> well_kept (onScore options d w).
Proof.
  unfold onScore. destruct (_ || _).
  - kept.
  - cbv zeta. intros H.
    apply (resetBall_kept (Some d)
             (set_pausedUntil (clock w (clock_reads w) + GOAL_PAUSE_MS)
                (snd (performance_now w)))).
    exact H.
Qed.

Lemma moveBall_between_walls (w : World) : ball_between_walls (moveBall w).
Proof.
  unfold ball_between_walls, moveBall. cbv zeta.
  destruct (Rleb_spec
              (ball_y (set_ball_y
                         (ball_y (set_ball_x (ball_x w + ball_vx w) w)
                          + ball_vy (set_ball_x (ball_x w + ball_vx w) w))
                         (set_ball_x (ball_x w + ball_vx w) w))
               - BALL_RADIUS) 0)
    as [Htop | Htop].
  - rewrite Rleb_false by (cbn; consts; lra). cbn. consts. lra.
  - cbn in Htop.
    destruct (Rleb_spec HEIGHT (ball_y w + ball_vy w + BALL_RADIUS))
      as [Hbot | Hbot].
    + cbn. rewrite (Rleb_true _ _ Hbot). cbn. consts. lra.
    + cbn. rewrite Rleb_false by lra. cbn. consts. lra.
Qed.

Lemma moveBall_kept (w : World) : well_kept w -> well_kept (moveBall w).
Proof.
  intros [_ Hs]. split; [apply moveBall_between_walls |].
  unfold scores_not_negative in *.
  destruct (moveBall_frame w) as (_ & _ & -> & Hc & _).
  unfold deref in *. rewrite Hc. exact Hs.
Qed.

Lemma hitPlayer_kept (w : World) :
  well_kept w -> well_kept (hitPlayer options w).
Proof. unfold hitPlayer. destruct (hitsPlayer w); kept. Qed.

Lemma hitAi_kept (w : World) : well_kept w -> well_kept (hitAi options w).
Proof. unfold hitAi. destruct (hitsAi w); kept. Qed.

Lemma goal_counted_kept (f : Scores -> Scores) (w : World) :
  (forall sc : Scores,
     (0 <= player sc)%Z /\ (0 <= ai sc)%Z ->
     (0 <= player (f sc))%Z /\ (0 <= ai (f sc))%Z) ->
  well_kept w -> well_kept (assign (scores w) f w).
Proof.
  intros Hf [Hb Hs]. split; [exact Hb |].
  unfold scores_not_negative.
  change (scores (assign (scores w) f w)) with (scores w).
  rewrite deref_assign_own. apply Hf. exact Hs.
Qed.

Lemma checkGoal_kept (w : World) :
  well_kept w -> well_kept (checkGoal options w).
Proof.
  intros H. unfold checkGoal. cbv zeta.
  destruct (_ <? _); [| destruct (_ <? _); [| exact H]];
    apply onScore_kept; apply goal_counted_kept; try exact H;
    intros sc [Hp Ha]; cbn; split; try assumption;
    apply Z.add_nonneg_nonneg; try assumption; discriminate.
Qed.

Lemma update_kept (dt : R) (w : World) :
  well_kept w -> well_kept (update options dt w).
Proof.
  intros H. rewrite update_phases.
  destruct (negb (running w)); [exact H |].
  cbn. destruct (_ <? _); [exact H |].
  unfold tick.
  apply checkGoal_kept, hitAi_kept, hitPlayer_kept, moveBall_kept.
  exact H.
Qed.

Lemma render_kept (w : World) : well_kept w -> well_kept (render w).
Proof. unfold render. destruct (running w); kept. Qed.

Lemma loop_kept (ts : R) (w : World) :
  well_kept w -> well_kept (loop options ts w).
Proof.
  intros H. unfold loop. cbv zeta.
  match goal with
  | |- context [update options ?dt ?w1] =>
      assert (H1 : well_kept w1) by (revert H; destruct (lastTime w); kept);
      pose proof (render_kept _ (update_kept dt w1 H1)) as H2;
      revert H2; generalize (render (update options dt w1))
  end.
  intros u. kept.
Qed.

Lemma iter_loop_kept (ts : R) (n : nat) (w : World) :
  well_kept w -> well_kept (Nat.iter n (loop options ts) w).
Proof.
  intros H. induction n as [| n IH]; cbn; [exact H |].
  apply loop_kept. exact IH.
Qed.

Lemma animationFrame_kept (ts : R) (w : World) :
  well_kept w -> well_kept (animationFrame options ts w).
Proof.
  intros H. unfold animationFrame. cbv zeta.
  apply iter_loop_kept. revert H. kept.
Qed.

Lemma start_kept (w : World) : well_kept w -> well_kept (start w).
Proof. unfold start. destruct (running w); kept. Qed.

Lemma stop_kept (w : World) : well_kept w -> well_kept (stop w).
Proof. unfold stop. cbv zeta. destruct (negb _); kept. Qed.

Lemma startOrReset_kept (w : World) :
  well_kept w -> well_kept (startOrReset options w).
Proof.
  unfold startOrReset.
  destruct (_ && _); [apply start_kept | apply resetMatch_kept].
Qed.

Lemma handle_kept (ev : Event) (w : World) :
  well_kept w -> well_kept (handle options ev w).
Proof.
  intros H. destruct ev; cbn [handle].
  - unfold onKeyDown. cbv zeta.
    match goal with
    | |- well_kept (if _ then resetMatch options ?u else _) =>
        assert (Hu : well_kept u)
          by (revert H; destruct (String.eqb code "ArrowUp");
              destruct (String.eqb code "ArrowDown"); kept);
        destruct (_ && _); [apply resetMatch_kept |]; exact Hu
    end.
  - revert H. unfold onKeyUp. cbv zeta.
    destruct (String.eqb code "ArrowUp");
      destruct (String.eqb code "ArrowDown"); kept.
  - unfold onClick.
    destruct (negb _); [apply startOrReset_kept |]; exact H.
  - revert H. unfold onTouchStart. destruct (touches e); kept.
  - revert H. unfold onTouchMove. destruct (touches e); [kept |].
    cbv zeta. destruct (_ <? _); [destruct (_ <? _) |]; kept.
  - unfold onTouchEnd. cbv zeta.
    assert (Hu : well_kept (set_input_down false (set_input_up false w)))
      by (revert H; kept).
    destruct (negb _); [| exact Hu].
    destruct (changedTouches e); [exact Hu |].
    destruct (_ && _); [apply startOrReset_kept |]; exact Hu.
  - apply animationFrame_kept. exact H.
  - apply start_kept. exact H.
  - apply stop_kept. exact H.
  - apply resetMatch_kept. exact H.
  - revert H. apply kept_same; [reflexivity |].
    unfold deref. cbn. destruct (Nat.eqb _ _); reflexivity.
Qed.

Lemma run_kept (evs : list Event) (w : World) :
  well_kept w -> well_kept (run options evs w).
Proof.
  revert w. induction evs as [| ev evs IH]; intros w H; cbn; [exact H |].
  apply IH, handle_kept, H.
Qed.

Lemma createPong_kept (clk rnd : nat -> R) :
  well_kept (createPong options clk rnd).
Proof.
  split; [apply centre_between_walls |].
  split; apply Z.le_refl.
Qed.

(** X1.  From a new game, after any history of events, the centre of the
    ball is between the walls: at least [BALL_RADIUS] from the top and
    from the bottom of the field. *)
Theorem ball_stays_between_walls (clk rnd : nat -> R) (evs : list Event) :
  ball_between_walls (run options evs (createPong options clk rnd)).
Proof. apply run_kept, createPong_kept. Qed.

(** X2.  From a new game, after any history of events, neither score is
    negative. *)
Theorem scores_stay_not_negative (clk rnd : nat -> R) (evs : list Event) :
  scores_not_negative (run options evs (createPong options clk rnd)).
Proof. apply run_kept, createPong_kept. Qed.

(** *** What a tick leaves alone *)

Lemma same_surroundings_refl (w : World) : same_surroundings w w.
Proof. repeat split. Qed.

Lemma same_surroundings_trans (w1 w2 w3 : World) :
  same_surroundings w1 w2 -> same_surroundings w2 w3 ->
  same_surroundings w1 w3.
Proof.
  unfold same_surroundings.
  intros (A1 & A2 & A3 & A4 & A5 & A6 & A7 & A8 & A9 & A10)
         (B1 & B2 & B3 & B4 & B5 & B6 & B7 & B8 & B9 & B10).
  repeat split; congruence.
Qed.

Lemma onScore_surroundings (d : R) (w : World) :
  same_surroundings w (onScore options d w).
Proof. unfold onScore. destruct (_ || _); repeat split. Qed.

Lemma checkGoal_surroundings (w : World) :
  same_surroundings w (checkGoal options w).
Proof.
  unfold checkGoal. cbv zeta.
  destruct (_ <? _); [| destruct (_ <? _); [| apply same_surroundings_refl]];
    match goal with
    | |- same_surroundings _ (onScore options ?d ?u) =>
        apply (same_surroundings_trans w u); [repeat split |];
        apply onScore_surroundings
    end.
Qed.

Lemma tick_surroundings (w : World) : same_surroundings w (tick options w).
Proof.
  unfold tick.
  match goal with
  | |- same_surroundings _ (checkGoal options ?u) =>
      apply (same_surroundings_trans w u); [| apply checkGoal_surroundings]
  end.
  unfold hitAi, hitPlayer, moveBall. cbv zeta.
  destruct (_ <=? _); destruct (_ <=? _);
    destruct (hitsPlayer _); destruct (hitsAi _); repeat split.
Qed.

Lemma update_surroundings (dt : R) (w : World) :
  same_surroundings w (update options dt w).
Proof.
  rewrite update_phases.
  destruct (negb (running w)); [apply same_surroundings_refl |].
  cbn. destruct (_ <? _); [repeat split |].
  apply (same_surroundings_trans w (snd (performance_now w)));
    [repeat split | apply tick_surroundings].
Qed.

Lemma render_surroundings (w : World) : same_surroundings w (render w).
Proof. unfold render. destruct (running w); repeat split. Qed.

(** *** Frames *)

(** What one frame does to the frame bookkeeping: the handle it requests
    is the next one, and it is on top of what was pending. *)
Lemma loop_requests (ts : R) (w : World) :
  raf_pending (loop options ts w) = raf_next w :: raf_pending w
  /\ raf_next (loop options ts w) = S (raf_next w)
  /\ rafId (loop options ts w) = raf_next w.
Proof.
  unfold loop. cbv zeta.
  match goal with
  | |- context [update options ?dt ?w1] =>
      pose proof (update_surroundings dt w1) as Hu;
      pose proof (render_surroundings (update options dt w1)) as Hr;
      assert (H1 : raf_pending w1 = raf_pending w /\ raf_next w1 = raf_next w)
        by (destruct (lastTime w); split; reflexivity);
      revert Hu Hr H1;
      generalize (render (update options dt w1));
      generalize (update options dt w1);
      generalize w1
  end.
  intros w1 w2 w3
    (_ & _ & _ & _ & Hp2 & Hn2 & _) (_ & _ & _ & _ & Hp3 & Hn3 & _)
    [Hp1 Hn1].
  cbn. rewrite Hp3, Hn3, Hp2, Hn2, Hp1, Hn1. repeat split.
Qed.

Lemma iter_loop_requests (ts : R) (n : nat) (w : World) :
  raf_pending (Nat.iter n (loop options ts) w)
  = rev (seq (raf_next w) n) ++ raf_pending w
  /\ raf_next (Nat.iter n (loop options ts) w) = (raf_next w + n)%nat.
Proof.
  induction n as [| n [IHp IHn]].
  - cbn. split; [reflexivity | symmetry; apply Nat.add_0_r].
  - change (Nat.iter (S n) (loop options ts) w)
      with (loop options ts (Nat.iter n (loop options ts) w)).
    destruct (loop_requests ts (Nat.iter n (loop options ts) w))
      as (Hp & Hn & _).
    rewrite Hp, Hn, IHp, IHn, seq_S, rev_app_distr.
    split; [reflexivity | symmetry; apply Nat.add_succ_r].
Qed.

(** X3.  An animation frame runs each pending callback once and leaves as
    many pending as it found: the handles pending afterwards are exactly
    the next ones, one for each callback run, newest first, and none of
    the old ones. *)
Theorem animationFrame_requests (ts : R) (w : World) :
  let n := List.length (raf_pending w) in
  raf_pending (animationFrame options ts w) = rev (seq (raf_next w) n)
  /\ raf_next (animationFrame options ts w) = (raf_next w + n)%nat
  /\ List.length (raf_pending (animationFrame options ts w)) = n.
Proof.
  intros n. unfold animationFrame. cbv zeta. fold n.
  match goal with
  | |- context [Nat.iter n (loop options ts) ?u] =>
      destruct (iter_loop_requests ts n u) as [Hp Hn]
  end.
  cbn in Hp, Hn. rewrite app_nil_r in Hp.
  rewrite Hp, Hn. repeat split.
  rewrite length_rev, length_seq. reflexivity.
Qed.

Lemma update_stopped (dt : R) (w : World) :
  running w = false -> update options dt w = w.
Proof. intros H. rewrite update_phases, H. reflexivity. Qed.

Lemma same_match_refl (w : World) : same_match w w.
Proof. repeat split. Qed.

Lemma same_match_trans (w1 w2 w3 : World) :
  same_match w1 w2 -> same_match w2 w3 -> same_match w1 w3.
Proof.
  unfold same_match.
  intros (A1 & A2 & A3 & A4 & A5 & A6 & A7 & A8 & A9 & A10)
         (B1 & B2 & B3 & B4 & B5 & B6 & B7 & B8 & B9 & B10).
  repeat split; congruence.
Qed.

Lemma loop_stopped (ts : R) (w : World) :
  running w = false -> same_match w (loop options ts w).
Proof.
  intros H. unfold loop. cbv zeta.
  match goal with
  | |- context [update options ?dt ?w1] =>
      assert (H1 : running w1 = false)
        by (rewrite <- H; destruct (lastTime w); reflexivity);
      rewrite (update_stopped dt w1 H1);
      unfold render; rewrite H1
  end.
  destruct (lastTime w); repeat split.
Qed.

Lemma iter_loop_stopped (ts : R) (n : nat) (w : World) :
  running w = false -> same_match w (Nat.iter n (loop options ts) w).
Proof.
  intros H. induction n as [| n IH]; [apply same_match_refl |].
  change (Nat.iter (S n) (loop options ts) w)
    with (loop options ts (Nat.iter n (loop options ts) w)).
  apply (same_match_trans w (Nat.iter n (loop options ts) w)); [exact IH |].
  apply loop_stopped.
  destruct IH as (_ & _ & _ & _ & _ & _ & _ & -> & _). exact H.
Qed.

Lemma animationFrame_stopped (ts : R) (w : World) :
  running w = false -> same_match w (animationFrame options ts w).
Proof.
  intros H. unfold animationFrame. cbv zeta.
  match goal with
  | |- same_match _ (Nat.iter ?n _ ?u) =>
      apply (same_match_trans w u);
        [repeat split | apply (iter_loop_stopped ts n u); exact H]
  end.
Qed.

(** X4.  While [running] is false, frames change nothing of the match:
    after any number of animation frames, whatever their time stamps and
    however many callbacks are pending, the ball, both paddles, the
    scores, the run and pause status and the overlay are as they were. *)
Theorem frames_while_stopped (tss : list R) (w : World) :
  running w = false -> same_match w (frames options tss w).
Proof.
  revert w. induction tss as [| ts tss IH]; intros w H.
  - apply same_match_refl.
  - unfold frames. cbn [map run fold_left handle].
    pose proof (animationFrame_stopped ts w H) as H1.
    apply (same_match_trans w (animationFrame options ts w)); [exact H1 |].
    apply IH.
    destruct H1 as (_ & _ & _ & _ & _ & _ & _ & -> & _). exact H.
Qed.

(** *** Goals, seen from [update] *)

(** Up to the test for a goal, a tick leaves the match status alone. *)
Lemma before_goal (w : World) :
  let u :=
    hitAi options (hitPlayer options (moveBall (movePaddles options w))) in
  running u = running w /\ scores u = scores w /\ cells u = cells w
  /\ overlay u = overlay w /\ pausedUntil u = pausedUntil w.
Proof.
  cbv zeta. unfold hitAi, hitPlayer, moveBall. cbv zeta.
  destruct (_ <=? _); destruct (_ <=? _);
    destruct (hitsPlayer _); destruct (hitsAi _); repeat split.
Qed.

Lemma onScore_scores (d : R) (w : World) :
  deref (scores (onScore options d w)) (onScore options d w)
  = deref (scores w) w.
Proof. unfold onScore. destruct (_ || _); reflexivity. Qed.

Lemma onScore_stops (d : R) (w : World) :
  running w = true ->
  running (onScore options d w) = false ->
  (WIN_SCORE options <= IZR (player (deref (scores w) w))
   \/ WIN_SCORE options <= IZR (ai (deref (scores w) w)))
  /\ overlay (onScore options d w)
     = if (player (deref (scores w) w) >? ai (deref (scores w) w))%Z
       then YouWin else AiWins.
Proof.
  intros Hrun. unfold onScore.
  destruct (Rleb_spec (WIN_SCORE options) (IZR (player (deref (scores w) w))));
    [intros _; split; [left; assumption | reflexivity] |].
  destruct (Rleb_spec (WIN_SCORE options) (IZR (ai (deref (scores w) w))));
    [intros _; split; [right; assumption | reflexivity] |].
  cbn. rewrite Hrun. discriminate.
Qed.

(** The three ways [update] goes: stopped, paused after the one reading
    of the clock, or a tick after it. *)
Lemma update_cases (dt : R) (w : World) :
  update options dt w = w
  \/ update options dt w = snd (performance_now w)
  \/ (running w = true
      /\ update options dt w = tick options (snd (performance_now w))).
Proof.
  rewrite update_phases. destruct (running w); [| left; reflexivity].
  right.
  change (performance_now w)
    with (fst (performance_now w), snd (performance_now w)).
  cbv beta iota. destruct (_ <? _); [left | right; split]; reflexivity.
Qed.

(** X5.  One call of [update] changes the scores by one goal at most, and
    only for a ball carried over a goal line: either both scores are as
    they were, or the ball went left of [- BALL_RADIUS] and [scores.ai]
    grew by one, or it went right of [WIDTH + BALL_RADIUS] and
    [scores.player] grew by one. *)
Theorem update_counts_goals (dt : R) (w : World) :
  let sc := deref (scores w) w in
  let sc' := deref (scores (update options dt w)) (update options dt w) in
  sc' = sc
  \/ (ball_x w + ball_vx w < - BALL_RADIUS
      /\ sc' = mkScores (player sc) (ai sc + 1))
  \/ (ball_x w + ball_vx w > WIDTH + BALL_RADIUS
      /\ sc' = mkScores (player sc + 1) (ai sc)).
Proof.
  intros sc sc'. unfold sc'.
  destruct (update_cases dt w) as [-> | [-> | [_ ->]]];
    [left; reflexivity | left; reflexivity |].
  unfold tick.
  destruct (tested_x options (snd (performance_now w))) as [Hl Hr].
  destruct (before_goal (snd (performance_now w))) as (_ & Hs & Hc & _).
  revert Hl Hr Hs Hc.
  generalize (hitAi options (hitPlayer options
                (moveBall (movePaddles options (snd (performance_now w)))))).
  intros u Hl Hr Hs Hc. cbn in Hl, Hr, Hs, Hc.
  assert (Hu : deref (scores u) u = sc)
    by (unfold deref, sc; rewrite Hs, Hc; reflexivity).
  unfold checkGoal. cbv zeta.
  destruct (Rltb_spec (ball_x u) (- BALL_RADIUS)) as [Hout | Hin].
  - right. left. split; [apply Hl; exact Hout |].
    rewrite onScore_scores.
    change (scores (assign (scores u) (fun s => set_ai (ai s + 1) s) u))
      with (scores u).
    rewrite deref_assign_own, Hu. reflexivity.
  - destruct (Rltb_spec (WIDTH + BALL_RADIUS) (ball_x u)) as [Hout | Hin'].
    + right. right. split; [apply Hr; exact Hout |].
      rewrite onScore_scores.
      change (scores (assign (scores u)
                        (fun s => set_player (player s + 1) s) u))
        with (scores u).
      rewrite deref_assign_own, Hu. reflexivity.
    + left. exact Hu.
Qed.

(** X6.  [update] stops a running match only on a win: if [running] was
    true before the call and is false after it, then a ball has just been
    carried over a goal line, one of the scores has reached [WIN_SCORE],
    and the overlay names the winner, the player when [scores.player] is
    the greater and the AI otherwise. *)
Theorem update_stops_on_win (dt : R) (w : World) :
  running w = true ->
  running (update options dt w) = false ->
  let w' := update options dt w in
  let sc' := deref (scores w') w' in
  (ball_x w + ball_vx w < - BALL_RADIUS
   \/ ball_x w + ball_vx w > WIDTH + BALL_RADIUS)
  /\ (WIN_SCORE options <= IZR (player sc')
      \/ WIN_SCORE options <= IZR (ai sc'))
  /\ overlay w' = if (player sc' >? ai sc')%Z then YouWin else AiWins.
Proof.
  intros Hrun.
  destruct (update_cases dt w) as [-> | [-> | [_ ->]]];
    [rewrite Hrun; discriminate | cbn; rewrite Hrun; discriminate |].
  unfold tick.
  destruct (tested_x options (snd (performance_now w))) as [Hl Hr].
  destruct (before_goal (snd (performance_now w))) as (Hk & _).
  revert Hl Hr Hk.
  generalize (hitAi options (hitPlayer options
                (moveBall (movePaddles options (snd (performance_now w)))))).
  intros u Hl Hr Hk. cbn in Hl, Hr, Hk. rewrite Hrun in Hk.
  unfold checkGoal. cbv zeta.
  destruct (Rltb_spec (ball_x u) (- BALL_RADIUS)) as [Hout | Hin].
  - intros Hstop. split; [left; apply Hl; exact Hout |].
    rewrite onScore_scores. apply onScore_stops; [exact Hk | exact Hstop].
  - destruct (Rltb_spec (WIDTH + BALL_RADIUS) (ball_x u)) as [Hout | Hin'].
    + intros Hstop. split; [right; apply Hr; exact Hout |].
      rewrite onScore_scores. apply onScore_stops; [exact Hk | exact Hstop].
    + rewrite Hk. discriminate.
Qed.

(** *** Paddles *)

Lemma clamp_near (y v hi : R) :
  0 <= y <= hi -> Rabs (clamp (y + v) 0 hi - y) <= Rabs v.
Proof.
  intros H. unfold clamp, Rmin, Rmax, Rabs.
  destruct (Rle_dec 0 (y + v)); destruct (Rle_dec hi _);
    destruct (Rcase_abs _); destruct (Rcase_abs v); lra.
Qed.

Lemma playerVelocity_bound (w : World) :
  0 <= PLAYER_SPEED options ->
  Rabs (playerVelocity options w) <= PLAYER_SPEED options.
Proof.
  intros H. unfold playerVelocity, Rabs. cbv zeta.
  destruct (input_up w); destruct (input_down w);
    destruct (Rcase_abs _); lra.
Qed.

Lemma aiSpeed_of_bound (w : World) :
  0 <= AI_MAX_SPEED options ->
  0 <= aiSpeed_of options w <= AI_MAX_SPEED options.
Proof.
  intros H. unfold aiSpeed_of. cbv zeta. destruct (_ <? _); lra.
Qed.

(** X7.  With speeds that are not negative and both paddles inside the
    field, one call of [update] moves the player paddle by at most
    [PLAYER_SPEED] and the AI paddle by at most [AI_MAX_SPEED]. *)
Theorem paddles_keep_to_their_speed (dt : R) (w : World) :
  paddles_in_field w ->
  0 <= PLAYER_SPEED options ->
  0 <= AI_MAX_SPEED options ->
  Rabs (player_y (update options dt w) - player_y w) <= PLAYER_SPEED options
  /\ Rabs (ai_y (update options dt w) - ai_y w) <= AI_MAX_SPEED options.
Proof.
  intros [Hp Ha] Hps Has.
  assert (Hz : forall y s : R, 0 <= s -> Rabs (y - y) <= s).
  { intros y s Hs. replace (y - y) with 0 by ring. rewrite Rabs_R0. exact Hs. }
  destruct (update_cases dt w) as [-> | [-> | [_ ->]]];
    [split; apply Hz; assumption | split; apply Hz; assumption |].
  destruct (tick_paddles options (snd (performance_now w))) as [-> ->].
  rewrite movePaddles_player, movePaddles_ai. split.
  - apply Rle_trans
      with (Rabs (playerVelocity options (snd (performance_now w)))).
    + apply (clamp_near (player_y w)). exact Hp.
    + apply playerVelocity_bound. exact Hps.
  - pose proof (aiSpeed_of_bound (snd (performance_now w)) Has) as [He1 He2].
    match goal with
    | |- Rabs (clamp (_ + ?step) _ _ - _) <= _ =>
        apply Rle_trans with (Rabs step)
    end.
    + apply (clamp_near (ai_y w)). exact Ha.
    + apply Rle_trans with (aiSpeed_of options (snd (performance_now w)));
        [apply clamp_step_small; exact He1 | exact He2].
Qed.

(** X8.  [reset()] does not end the pause that follows a goal: it leaves
    [pausedUntil] and the clock alone, so when the clock reads less than
    [pausedUntil], the match is reset and running and the next [update]
    still changes nothing. *)
Theorem reset_keeps_the_pause (dt : R) (w : World) :
  clock w (clock_reads w) < pausedUntil w ->
  let w' := reset options w in
  running w' = true
  /\ pausedUntil w' = pausedUntil w
  /\ deref (scores w') w' = mkScores 0 0
  /\ state (update options dt w') = state w'.
Proof.
  intros Hpause w'.
  assert (Hrun : running w' = true) by reflexivity.
  assert (Hpu : pausedUntil w' = pausedUntil w) by reflexivity.
  assert (Hclk : clock w' (clock_reads w') = clock w (clock_reads w))
    by reflexivity.
  split; [exact Hrun | split; [exact Hpu | split]].
  - apply (resetMatch_scores options w).
  - rewrite update_phases, Hrun.
    change (performance_now w')
      with (clock w' (clock_reads w'), snd (performance_now w')).
    cbv beta iota delta [negb].
    change (pausedUntil (snd (performance_now w'))) with (pausedUntil w').
    rewrite Hclk, Hpu, (Rltb_true _ _ Hpause). reflexivity.
Qed.

(** *** The ball *)

Lemma direction_after_flip (v : R) :
  (0 < v -> or_else (Math_sign (v * -1)) 1 = -1)
  /\ (v <= 0 -> or_else (Math_sign (v * -1)) 1 = 1).
Proof.
  unfold or_else, Math_sign. split; intros H.
  - rewrite Rltb_false, Rltb_true by lra.
    destruct (Req_dec_T (-1) 0); lra.
  - destruct (Rltb_spec 0 (v * -1)).
    + destruct (Req_dec_T 1 0); lra.
    + rewrite Rltb_false by lra.
      destruct (Req_dec_T 0 0); [reflexivity | lra].
Qed.

Lemma norm_positive (vx vy : R) :
  1 <= vx * vx -> 0 < or_else (Math_hypot vx vy) 1.
Proof.
  intros Hvx.
  pose proof (Math_hypot_nonneg vx vy) as Hpos.
  pose proof (Math_hypot_sqr vx vy) as Hsqr.
  unfold or_else. destruct (Req_dec_T _ 0) as [E | E]; [lra |].
  destruct Hpos as [Hpos | Hpos]; [exact Hpos | congruence].
Qed.

Lemma root_at_least_one (m : R) : 1 <= sqrt (Rmax m 1).
Proof.
  rewrite <- sqrt_1 at 1. apply sqrt_le_1_alt. apply Rmax_r.
Qed.

(** X9.  Whenever the speed computed for a hit is positive,
    [reflectFromPaddle] sends the ball back: a ball that moved right
    ([vx > 0]) then moves left, and a ball that moved left or had no
    horizontal velocity then moves right; the new horizontal velocity is
    never zero. *)
Theorem reflectFromPaddle_turns_back (paddleY : R) (w : World) :
  0 < speedAfterHit options w ->
  let w' := reflectFromPaddle options paddleY w in
  (0 < ball_vx w -> ball_vx w' < 0)
  /\ (ball_vx w <= 0 -> 0 < ball_vx w')
  /\ ball_vx w' <> 0.
Proof.
  intros Hs w'.
  destruct (direction_after_flip (ball_vx w)) as [Hneg Hpos].
  unfold w', reflectFromPaddle. cbv zeta.
  cbn [ball_vx ball_vy ball_y state set_ball_vx set_ball_vy with_state].
  unfold speedAfterHit in Hs. rewrite Math_hypot_flip.
  set (s := Rmin (Math_hypot (ball_vx w) (ball_vy w) + BALL_SPEED_STEP options)
              (BALL_SPEED_MAX options)) in *.
  set (d := or_else (Math_sign (ball_vx w * -1)) 1) in *.
  match goal with
  | |- context [sqrt (Rmax ?m 1)] =>
      pose proof (root_at_least_one m) as Hr; set (r := sqrt (Rmax m 1)) in *
  end.
  match goal with
  | |- context [or_else (Math_hypot (d * r) ?y) 1] =>
      assert (Hn : 0 < or_else (Math_hypot (d * r) y) 1);
      [| set (n := or_else (Math_hypot (d * r) y) 1) in *]
  end.
  { apply norm_positive.
    replace (d * r * (d * r)) with (d * d * (r * r)) by ring.
    unfold d. rewrite direction_sqr. nra. }
  assert (Hq : 0 < r / n * s).
  { apply Rmult_lt_0_compat; [| exact Hs].
    apply Rdiv_lt_0_compat; lra. }
  assert (Hvx : d * r / n * s = d * (r / n * s)) by (field; lra).
  rewrite Hvx.
  assert (Hleft : 0 < ball_vx w -> d * (r / n * s) < 0)
    by (intros H; rewrite (Hneg H); lra).
  assert (Hright : ball_vx w <= 0 -> 0 < d * (r / n * s))
    by (intros H; rewrite (Hpos H); lra).
  split; [exact Hleft | split; [exact Hright |]].
  destruct (Rlt_le_dec 0 (ball_vx w)) as [H | H];
    [specialize (Hleft H) | specialize (Hright H)]; lra.
Qed.

(** X10.  A tick meets one paddle at most.  When the test of the player
    paddle succeeds, the ball is put at [PLAYER_X + PADDLE_WIDTH +
    BALL_RADIUS], just right of the paddle, and the test of the AI paddle
    that follows fails; when that test fails the world is untouched.
    When the test of the AI paddle succeeds, the ball is put at [AI_X -
    BALL_RADIUS], just left of the paddle, and the player paddle was not
    met before it and would not be met after it. *)
Theorem one_paddle_per_tick (w : World) :
  (if hitsPlayer w
   then ball_x (hitPlayer options w) = PLAYER_X + PADDLE_WIDTH + BALL_RADIUS
        /\ hitsAi (hitPlayer options w) = false
   else hitPlayer options w = w)
  /\ (if hitsAi w
      then ball_x (hitAi options w) = AI_X - BALL_RADIUS
           /\ hitsPlayer w = false
           /\ hitsPlayer (hitAi options w) = false
      else hitAi options w = w).
Proof.
  split.
  - unfold hitPlayer. destruct (hitsPlayer w); [| reflexivity].
    cbv zeta. split; [reflexivity |].
    unfold hitsAi.
    change (ball_x (reflectFromPaddle options
                      (player_y (set_ball_x
                                   (PLAYER_X + PADDLE_WIDTH + BALL_RADIUS) w))
                      (set_ball_x (PLAYER_X + PADDLE_WIDTH + BALL_RADIUS) w)))
      with (PLAYER_X + PADDLE_WIDTH + BALL_RADIUS).
    rewrite (Rleb_false AI_X) by (consts; lra). reflexivity.
  - unfold hitAi. destruct (hitsAi w) eqn:Ha; [| reflexivity].
    cbv zeta. split; [reflexivity |].
    assert (Hx : AI_X <= ball_x w + BALL_RADIUS).
    { unfold hitsAi in Ha.
      destruct (Rleb_spec AI_X (ball_x w + BALL_RADIUS));
        [assumption | discriminate]. }
    split.
    + unfold hitsPlayer.
      rewrite (Rleb_false (ball_x w - BALL_RADIUS)) by (consts; lra).
      reflexivity.
    + unfold hitsPlayer.
      change (ball_x (reflectFromPaddle options
                        (ai_y (set_ball_x (AI_X - BALL_RADIUS) w))
                        (set_ball_x (AI_X - BALL_RADIUS) w)))
        with (AI_X - BALL_RADIUS).
      rewrite (Rleb_false (AI_X - BALL_RADIUS - BALL_RADIUS))
        by (consts; lra).
      reflexivity.
Qed.

(** The walls, in full. *)
Lemma moveBall_law (w : World) :
  let y := ball_y w + ball_vy w in
  (ball_y (moveBall w), ball_vy (moveBall w))
  = (if y - BALL_RADIUS <=? 0 then (BALL_RADIUS, - ball_vy w)
     else if y + BALL_RADIUS >=? HEIGHT
          then (HEIGHT - BALL_RADIUS, - ball_vy w)
          else (y, ball_vy w))
  /\ ball_x (moveBall w) = ball_x w + ball_vx w
  /\ ball_vx (moveBall w) = ball_vx w
  /\ Math_hypot (ball_vx (moveBall w)) (ball_vy (moveBall w))
     = Math_hypot (ball_vx w) (ball_vy w).
Proof.
  intros y.
  destruct (moveBall_x w) as [Hx Hvx].
  assert (Hy : (ball_y (moveBall w), ball_vy (moveBall w))
               = (if y - BALL_RADIUS <=? 0 then (BALL_RADIUS, - ball_vy w)
                  else if y + BALL_RADIUS >=? HEIGHT
                       then (HEIGHT - BALL_RADIUS, - ball_vy w)
                       else (y, ball_vy w))).
  { unfold moveBall. cbv zeta.
    change (ball_y (set_ball_y
                      (ball_y (set_ball_x (ball_x w + ball_vx w) w)
                       + ball_vy (set_ball_x (ball_x w + ball_vx w) w))
                      (set_ball_x (ball_x w + ball_vx w) w)))
      with y.
    destruct (Rleb_spec (y - BALL_RADIUS) 0) as [Htop | Htop].
    - rewrite Rleb_false by (cbn; consts; lra). cbn. f_equal. ring.
    - destruct (Rleb_spec HEIGHT (y + BALL_RADIUS)) as [Hbot | Hbot].
      + cbn. fold y. rewrite (Rleb_true _ _ Hbot). cbn. f_equal. ring.
      + cbn. fold y. rewrite Rleb_false by lra. reflexivity. }
  split; [exact Hy | split; [exact Hx | split; [exact Hvx |]]].
  rewrite Hvx.
  assert (Hvy : ball_vy (moveBall w) = ball_vy w
                \/ ball_vy (moveBall w) = - ball_vy w).
  { pose proof (f_equal snd Hy) as H. cbn [snd] in H. rewrite H.
    destruct (_ <=? _); [right; reflexivity |].
    destruct (_ <=? _); [right | left]; reflexivity. }
  destruct Hvy as [-> | ->]; [reflexivity |].
  unfold Math_hypot. f_equal. ring.
Qed.

(** X11.  What the walls do to the ball in lines 287-291, decided on where
    the velocity carries it: at or beyond the top wall it is put at
    [BALL_RADIUS] and [vy] changes sign; otherwise at or beyond the bottom
    wall it is put at [HEIGHT - BALL_RADIUS] and [vy] changes sign;
    otherwise it moves freely.  The second test never undoes the first,
    the horizontal velocity is untouched, and the speed [hypot (vx, vy)]
    is the same before and after. *)
Theorem moveBall_bounces (w : World) :
  let y := ball_y w + ball_vy w in
  (ball_y (moveBall w), ball_vy (moveBall w))
  = (if y - BALL_RADIUS <=? 0 then (BALL_RADIUS, - ball_vy w)
     else if y + BALL_RADIUS >=? HEIGHT
          then (HEIGHT - BALL_RADIUS, - ball_vy w)
          else (y, ball_vy w))
  /\ ball_x (moveBall w) = ball_x w + ball_vx w
  /\ ball_vx (moveBall w) = ball_vx w
  /\ Math_hypot (ball_vx (moveBall w)) (ball_vy (moveBall w))
     = Math_hypot (ball_vx w) (ball_vy w).
Proof. exact (moveBall_law w). Qed.

Lemma randomRange_within (lo hi r : R) :
  lo <= hi -> 0 <= r <= 1 -> lo <= lo + r * (hi - lo) <= hi.
Proof. intros Hlh [H0 H1]. nra. Qed.

(** A serve, in full. *)
Lemma resetBall_law (d : option R) (w : World) :
  (forall n : nat, 0 <= rand w n <= 1) ->
  0 <= BALL_SPEED_INITIAL options ->
  let w' := resetBall options d w in
  ball_x w' = WIDTH / 2
  /\ ball_y w' = HEIGHT / 2
  /\ Rabs (ball_vy w') <= BALL_SPEED_INITIAL options / 2
  /\ match d with
     | Some direction =>
         ball_vx w' = direction * BALL_SPEED_INITIAL options
     | None =>
         ball_vx w' = BALL_SPEED_INITIAL options
         \/ ball_vx w' = - BALL_SPEED_INITIAL options
     end.
Proof.
  intros Hrand Hspeed w'.
  assert (Hvy : forall r : R, 0 <= r <= 1 ->
            Rabs (- BALL_SPEED_INITIAL options / 2
                  + r * (BALL_SPEED_INITIAL options / 2
                         - - BALL_SPEED_INITIAL options / 2))
            <= BALL_SPEED_INITIAL options / 2).
  { intros r Hr.
    pose proof (randomRange_within (- BALL_SPEED_INITIAL options / 2)
                  (BALL_SPEED_INITIAL options / 2) r) as H.
    apply Rabs_le. lra. }
  unfold w'. destruct d as [direction |].
  - repeat split. apply (Hvy (rand w (rand_reads w))), Hrand.
  - split; [reflexivity | split; [reflexivity | split]].
    + apply (Hvy (rand w (S (rand_reads w)))), Hrand.
    + cbn. destruct (_ <? _); [right | left]; ring.
Qed.

(** X12.  A serve, for a random source that answers within [0, 1] and an
    initial speed that is not negative: [resetBall] puts the ball at the
    centre of the field, with a vertical velocity of at most half the
    initial speed either way, and a horizontal velocity of the direction
    given times the initial speed, or, when no direction is given, of the
    initial speed to the right or to the left. *)
Theorem resetBall_serves (d : option R) (w : World) :
  (forall n : nat, 0 <= rand w n <= 1) ->
  0 <= BALL_SPEED_INITIAL options ->
  let w' := resetBall options d w in
  ball_x w' = WIDTH / 2
  /\ ball_y w' = HEIGHT / 2
  /\ Rabs (ball_vy w') <= BALL_SPEED_INITIAL options / 2
  /\ match d with
     | Some direction =>
         ball_vx w' = direction * BALL_SPEED_INITIAL options
     | None =>
         ball_vx w' = BALL_SPEED_INITIAL options
         \/ ball_vx w' = - BALL_SPEED_INITIAL options
     end.
Proof. exact (resetBall_law d w). Qed.

(** *** Keys, touches and clicks *)

Lemma set_input_up_same (b : bool) (w : World) :
  input_up w = b -> set_input_up b w = w.
Proof. intros <-. destruct w as [[] ]. reflexivity. Qed.

Lemma set_input_down_same (b : bool) (w : World) :
  input_down w = b -> set_input_down b w = w.
Proof. intros <-. destruct w as [[] ]. reflexivity. Qed.

(** X13.  Pressing a key twice is pressing it once: a second [keydown]
    with the same code, as the host sends while a key is held, changes
    nothing, whatever the code, Enter on a stopped game included. *)
Theorem onKeyDown_twice (code : string) (w : World) :
  onKeyDown options code (onKeyDown options code w)
  = onKeyDown options code w.
Proof.
  set (r := onKeyDown options code w).
  assert (Hup : String.eqb code "ArrowUp" = true -> input_up r = true).
  { intros E. unfold r, onKeyDown. cbv zeta. rewrite E.
    destruct (String.eqb code "ArrowDown"); destruct (_ && _); reflexivity. }
  assert (Hdown : String.eqb code "ArrowDown" = true -> input_down r = true).
  { intros E. unfold r, onKeyDown. cbv zeta. rewrite E.
    destruct (String.eqb code "ArrowUp"); destruct (_ && _); reflexivity. }
  assert (Hrun : String.eqb code "Enter" && negb (running r) = false).
  { destruct (String.eqb code "Enter") eqn:E; [| reflexivity].
    unfold r, onKeyDown. cbv zeta. rewrite E. cbn [andb].
    destruct (String.eqb code "ArrowUp");
      destruct (String.eqb code "ArrowDown");
      cbn [running state set_input_up set_input_down with_state];
      destruct (running w) eqn:Er; cbn [negb];
      solve [reflexivity | cbn; rewrite Er; reflexivity]. }
  clearbody r. unfold onKeyDown. cbv zeta.
  assert (Hflags : (if String.eqb code "ArrowDown"
                    then set_input_down true
                           (if String.eqb code "ArrowUp"
                            then set_input_up true r else r)
                    else if String.eqb code "ArrowUp"
                         then set_input_up true r else r) = r).
  { destruct (String.eqb code "ArrowUp").
    - rewrite (set_input_up_same true r (Hup eq_refl)).
      destruct (String.eqb code "ArrowDown"); [| reflexivity].
      apply set_input_down_same, Hdown. reflexivity.
    - destruct (String.eqb code "ArrowDown"); [| reflexivity].
      apply set_input_down_same, Hdown. reflexivity. }
  rewrite Hflags, Hrun. reflexivity.
Qed.

(** X14.  A release undoes a press: unless the key is Enter on a stopped
    game (which resets the match), [keyup] after [keydown] of one code
    leaves the world as [keyup] alone would, so that a key other than the
    two arrows changes nothing at all and an arrow ends with its flag
    cleared. *)
Theorem onKeyUp_after_onKeyDown (code : string) (w : World) :
  code <> "Enter"%string \/ running w = true ->
  onKeyUp code (onKeyDown options code w) = onKeyUp code w
  /\ (code <> "ArrowUp"%string -> code <> "ArrowDown"%string ->
      onKeyUp code (onKeyDown options code w) = w)
  /\ (code = "ArrowUp"%string ->
      input_up (onKeyUp code (onKeyDown options code w)) = false)
  /\ (code = "ArrowDown"%string ->
      input_down (onKeyUp code (onKeyDown options code w)) = false).
Proof.
  intros H.
  assert (Hreset : String.eqb code "Enter" && negb (running w) = false).
  { destruct H as [H | ->]; [| apply andb_false_r].
    apply String.eqb_neq in H. rewrite H. reflexivity. }
  assert (Hdown : onKeyDown options code w
                  = (let w :=
                       if String.eqb code "ArrowUp"
                       then set_input_up true w else w in
                     if String.eqb code "ArrowDown"
                     then set_input_down true w else w)).
  { unfold onKeyDown. cbv zeta.
    destruct (String.eqb code "ArrowUp");
      destruct (String.eqb code "ArrowDown");
      cbn [running state set_input_up set_input_down with_state];
      rewrite Hreset; reflexivity. }
  rewrite Hdown. clear Hdown. unfold onKeyUp. cbv zeta.
  split; [| split; [| split]].
  - destruct (String.eqb code "ArrowUp");
      destruct (String.eqb code "ArrowDown"); reflexivity.
  - intros Hu Hd. apply String.eqb_neq in Hu, Hd. rewrite Hu, Hd.
    reflexivity.
  - intros ->. reflexivity.
  - intros ->. reflexivity.
Qed.

(** X15.  A touch move of at most [touchThreshold] (20) from where the
    gesture began, 20 itself included, records the position and nothing
    else: both input flags stay as they were, set or not. *)
Theorem onTouchMove_within_threshold (e : TouchEvent) (t : Touch)
    (rest : list Touch) (w : World) :
  touches e = t :: rest ->
  Rabs (clientY t - touchStartY w) <= touchThreshold ->
  onTouchMove e w = set_touchCurrentY (clientY t) w
  /\ input_up (onTouchMove e w) = input_up w
  /\ input_down (onTouchMove e w) = input_down w.
Proof.
  intros Ht Hnear.
  assert (H : onTouchMove e w = set_touchCurrentY (clientY t) w).
  { unfold onTouchMove. rewrite Ht. cbv zeta.
    change (touchCurrentY (set_touchCurrentY (clientY t) w)) with (clientY t).
    change (touchStartY (set_touchCurrentY (clientY t) w))
      with (touchStartY w).
    rewrite (Rltb_false _ _ Hnear). reflexivity. }
  rewrite H. repeat split.
Qed.

Lemma scores_are_nil (sc : Scores) :
  ((player sc =? 0)%Z && (ai sc =? 0)%Z) = true -> sc = mkScores 0 0.
Proof.
  destruct sc as [p a]. cbn. intros H.
  apply andb_prop in H. destruct H as [Hp Ha].
  apply Z.eqb_eq in Hp, Ha. subst. reflexivity.
Qed.

(** X16.  A click on a stopped game always gives a running match at nil
    all; but it requests a frame only when the scores were nil all
    already (the game is started), and none when it resets the match. *)
Theorem onClick_restarts (w : World) :
  running w = false ->
  let fresh :=
    (player (deref (scores w) w) =? 0)%Z && (ai (deref (scores w) w) =? 0)%Z in
  let w' := onClick options w in
  running w' = true
  /\ deref (scores w') w' = mkScores 0 0
  /\ raf_pending w'
     = if fresh then raf_next w :: raf_pending w else raf_pending w.
Proof.
  intros Hrun fresh w'. unfold w', onClick. rewrite Hrun. cbn [negb].
  unfold startOrReset. fold fresh.
  destruct fresh eqn:Hfresh.
  - unfold start. rewrite Hrun.
    split; [reflexivity | split; [| reflexivity]].
    apply scores_are_nil. exact Hfresh.
  - split; [reflexivity | split; [apply resetMatch_scores | reflexivity]].
Qed.

Lemma filter_twice (f : nat -> bool) (l : list nat) :
  filter f (filter f l) = filter f l.
Proof.
  induction l as [| h l IH]; [reflexivity |].
  cbn. destruct (f h) eqn:Hf; [| exact IH].
  cbn. rewrite Hf, IH. reflexivity.
Qed.

(** X17.  [start()] and [stop()] are idempotent: a second call in a row
    changes nothing. *)
Theorem start_stop_idempotent (w : World) :
  start (start w) = start w /\ stop (stop w) = stop w.
Proof.
  split.
  - assert (H : running (start w) = true)
      by (unfold start; destruct (running w) eqn:E; [exact E | reflexivity]).
    unfold start at 1. rewrite H. reflexivity.
  - unfold stop. cbv zeta.
    change (rafId (set_running false w)) with (rafId w).
    destruct (Nat.eqb (rafId w) 0) eqn:E; cbn [negb].
    + change (rafId (set_running false (set_running false w)))
        with (rafId w).
      rewrite E. reflexivity.
    + change (rafId (set_running false
                       (cancelAnimationFrame (rafId w)
                          (set_running false w))))
        with (rafId w).
      rewrite E. cbn [negb].
      unfold cancelAnimationFrame, set_running, with_state. cbn.
      rewrite filter_twice. reflexivity.
Qed.

(** X18.  [stop()] halts the frame loop it can see: when the one pending
    frame is the one whose handle is in [rafId], after [stop()] nothing
    is pending, [running] is false, and an animation frame changes
    nothing at all. *)
Theorem stop_halts (w : World) :
  raf_pending w = [rafId w] ->
  rafId w <> 0%nat ->
  running (stop w) = false
  /\ raf_pending (stop w) = []
  /\ forall ts : R, animationFrame options ts (stop w) = stop w.
Proof.
  intros Hp Hid.
  assert (Hpending : raf_pending (stop w) = []).
  { unfold stop. cbv zeta.
    change (rafId (set_running false w)) with (rafId w).
    apply Nat.eqb_neq in Hid. rewrite Hid. cbn [negb].
    cbn. rewrite Hp. cbn. rewrite Nat.eqb_refl. reflexivity. }
  split; [| split; [exact Hpending |]].
  - unfold stop. cbv zeta. destruct (negb _); reflexivity.
  - intros ts. unfold animationFrame. cbv zeta. rewrite Hpending.
    cbn [List.length Nat.iter nat_rect].
    revert Hpending. generalize (stop w). intros u Hu.
    destruct u. cbn in Hu |- *. rewrite Hu. reflexivity.
Qed.

(** X19.  The size [updateSize] gives the host keeps the proportions of
    the field ([height * WIDTH = width * HEIGHT]); the width is at most
    [maxWidth] when there is one, and it is never zero unless [maxWidth]
    itself is.  Before the cap, the width is the first of these that is
    not zero: the width of the parent's bounding rectangle, the parent's
    [clientWidth], the [width] option, and 400. *)
Theorem updateSize_proportions (width maxWidth : option R)
    (parent : option ParentElement) :
  let cw := fst (updateSize width maxWidth parent) in
  let ch := snd (updateSize width maxWidth parent) in
  let capped v :=
    match maxWidth with Some maxW => Rmin v maxW | None => v end in
  ch * WIDTH = cw * HEIGHT
  /\ match maxWidth with
     | Some maxW => cw <= maxW /\ (cw = 0 -> maxW = 0)
     | None => cw <> 0
     end
  /\ (forall el : ParentElement,
        parent = Some el -> parent_rect_width el <> 0 ->
        cw = capped (parent_rect_width el))
  /\ (forall el : ParentElement,
        parent = Some el -> parent_rect_width el = 0 ->
        parent_clientWidth el <> 0 ->
        cw = capped (parent_clientWidth el))
  /\ (forall v : R,
        no_parent_width parent -> width = Some v -> v <> 0 ->
        cw = capped v)
  /\ (no_parent_width parent -> width = None \/ width = Some 0 ->
      cw = capped 400).
Proof.
  cbv zeta. unfold updateSize. cbv zeta. cbn [fst snd].
  split; [consts; field |]. split.
  { match goal with
    | |- context [if Req_dec_T ?c 0 then ?v else _] =>
        assert (Hc : (if Req_dec_T c 0 then v else c) <> 0);
        [| generalize dependent (if Req_dec_T c 0 then v else c)]
    end.
    { match goal with
      | |- (if ?t then ?v else ?c) <> 0 => destruct t as [E | E]; [| exact E]
      end.
      unfold or_else. destruct (Req_dec_T (nullish width 0) 0); lra. }
    intros c Hc. destruct maxWidth as [maxW |]; [| exact Hc].
    split; [apply Rmin_r |].
    unfold Rmin. destruct (Rle_dec c maxW); [contradiction | tauto]. }
  assert (Hzero : forall a : R,
            a = 0 -> forall x y : R, (if Req_dec_T a 0 then x else y) = x).
  { intros a Ha x y. destruct (Req_dec_T a 0); [reflexivity | contradiction]. }
  assert (Hnot : forall a : R,
            a <> 0 -> forall x y : R, (if Req_dec_T a 0 then x else y) = y).
  { intros a Ha x y. destruct (Req_dec_T a 0); [contradiction | reflexivity]. }
  assert (Hnone : no_parent_width parent ->
            match parent with
            | Some el =>
                if Req_dec_T (parent_rect_width el) 0
                then parent_clientWidth el
                else parent_rect_width el
            | None => 0
            end = 0).
  { destruct parent as [el |]; cbn; [| reflexivity].
    intros [Hr Hc]. rewrite (Hzero _ Hr). exact Hc. }
  repeat split.
  - intros el -> Hr. rewrite !(Hnot _ Hr). reflexivity.
  - intros el -> Hr Hc. rewrite !(Hzero _ Hr), (Hnot _ Hc). reflexivity.
  - intros v Hno -> Hv. rewrite (Hzero _ (Hnone Hno)).
    unfold or_else, nullish. rewrite (Hnot _ Hv). reflexivity.
  - intros Hno Hw. rewrite (Hzero _ (Hnone Hno)).
    unfold or_else, nullish.
    destruct Hw as [-> | ->]; rewrite Hzero; reflexivity.
Qed.

(** X20.  A reset with no frame pending leaves the game running but
    inert: after [reset()] (or Enter on a stopped game) [running] is true
    and still nothing is pending, so an animation frame changes nothing,
    and neither a click nor [start()] requests a frame, both returning at
    once because [running] is already true. *)
Theorem reset_without_frame_is_inert (w : World) :
  raf_pending w = [] ->
  let w' := reset options w in
  running w' = true
  /\ raf_pending w' = []
  /\ (running w = false -> onKeyDown options "Enter" w = w')
  /\ onClick options w' = w'
  /\ start w' = w'
  /\ forall ts : R, animationFrame options ts w' = w'.
Proof.
  intros Hp w'.
  assert (Hrun : running w' = true) by reflexivity.
  assert (Hp' : raf_pending w' = []) by exact Hp.
  split; [exact Hrun | split; [exact Hp' | split; [| split; [| split]]]].
  - intros Hstopped. unfold onKeyDown. cbv zeta.
    cbn [String.eqb Ascii.eqb Bool.eqb andb]. rewrite Hstopped. reflexivity.
  - unfold onClick. rewrite Hrun. reflexivity.
  - unfold start. rewrite Hrun. reflexivity.
  - intros ts. unfold animationFrame. cbv zeta. rewrite Hp'.
    cbn [List.length Nat.iter nat_rect].
    revert Hp'. generalize w'. intros u Hu.
    destruct u. cbn in Hu |- *. rewrite Hu. reflexivity.
Qed.

(** *** The speed of the ball *)

Section SpeedCap.

Hypothesis initial_not_negative : 0 <= BALL_SPEED_INITIAL options.
Hypothesis step_not_negative : 0 <= BALL_SPEED_STEP options.
Hypothesis max_not_negative : 0 <= BALL_SPEED_MAX options.

Lemma capped_same (w w' : World) :
  ball_vx w' = ball_vx w -> ball_vy w' = ball_vy w -> rand w' = rand w ->
  speed_capped options w -> speed_capped options w'.
Proof. unfold speed_capped. intros -> -> ->. auto. Qed.

Ltac capped := apply capped_same; reflexivity.
















End SpeedCap.


End Coverage.

(** ** The further properties at work on concrete worlds *)

Lemma deref_counted (f : Scores -> Scores) (w : World) :
  deref (scores (assign (scores w) f w)) (assign (scores w) f w)
  = f (deref (scores w) w).
Proof. exact (deref_assign_own f w). Qed.

(** A goal that brings the AI to [WIN_SCORE] ends the match. *)
Lemma update_last_goal (options : PongOptions) (dt : R) (w : World) :
  running w = true ->
  ~ clock w (clock_reads w) < pausedUntil w ->
  ball_x w + ball_vx w < - BALL_RADIUS ->
  WIN_SCORE options <= IZR (ai (deref (scores w) w) + 1) ->
  running (update options dt w) = false.
Proof.
  intros Hrun Hpause Hleft Hwin.
  rewrite (update_live options dt w Hrun Hpause). unfold tick.
  destruct (moveBall_x (movePaddles options (snd (performance_now w))))
    as [Hx _].
  destruct (before_goal options (snd (performance_now w)))
    as (_ & Hs & Hc & _).
  cbv zeta in Hs, Hc.
  assert (Hout : ball_x (moveBall (movePaddles options
                                     (snd (performance_now w))))
                 < - BALL_RADIUS)
    by (rewrite Hx; exact Hleft).
  rewrite hitPlayer_off in Hs, Hc |- * by (left; exact Hout).
  rewrite hitAi_off in Hs, Hc |- * by (left; exact Hout).
  unfold checkGoal. rewrite (Rltb_true _ _ Hout). cbv zeta.
  rewrite onScore_win; [reflexivity |].
  right. rewrite deref_counted.
  unfold deref. rewrite Hs, Hc. exact Hwin.
Qed.

(** At match point the ball is lost and the match is over. *)
Lemma match_point_lost : running (update defaults 0 match_point) = false.
Proof.
  apply update_last_goal.
  - reflexivity.
  - cbn. unfold still. lra.
  - cbn. consts. lra.
  - cbn. lra.
Qed.

(** The frame that loses the match leaves it stopped, and leaves the
    frame it requested pending. *)
Lemma lost_stopped : running lost = false /\ raf_pending lost = [2%nat].
Proof.
  unfold lost, animationFrame. cbv zeta.
  change (List.length (raf_pending match_point)) with 1%nat.
  match goal with
  | |- context [Nat.iter 1 ?f ?u] =>
      change (Nat.iter 1 f u) with (f u); set (w := u)
  end.
  split.
  - unfold loop. cbv zeta.
    change (lastTime w) with (@None R).
    cbv beta iota.
    match goal with
    | |- context [update defaults ?dt ?u] =>
        assert (H : running (update defaults dt u) = false)
    end.
    { apply update_last_goal.
      - reflexivity.
      - cbn; unfold still; lra.
      - cbn; consts; lra.
      - cbn. lra. }
    revert H.
    match goal with
    | |- context [update defaults ?dt ?u] => generalize (update defaults dt u)
    end.
    intros u H. unfold render. rewrite H. exact H.
  - destruct (loop_requests defaults 0 w) as (-> & _). reflexivity.
Qed.

Lemma frames_while_stopped_witness :
  running lost = false
  /\ raf_pending lost = [2%nat]
  /\ same_match lost (frames defaults [16; 33] lost).
Proof.
  destruct lost_stopped as [H1 H2].
  split; [exact H1 | split; [exact H2 |]].
  exact (frames_while_stopped defaults [16; 33] lost H1).
Defined.

Lemma update_stops_on_win_witness :
  running match_point = true
  /\ running (update defaults 0 match_point) = false
  /\ overlay (update defaults 0 match_point)
     = if (player (deref (scores (update defaults 0 match_point))
                     (update defaults 0 match_point))
           >? ai (deref (scores (update defaults 0 match_point))
                    (update defaults 0 match_point)))%Z
       then YouWin else AiWins.
Proof.
  assert (H1 : running match_point = true) by reflexivity.
  split; [exact H1 | split; [exact match_point_lost |]].
  exact (proj2 (proj2 (update_stops_on_win defaults 0 match_point H1
                         match_point_lost))).
Defined.

Lemma pressing_in_field : paddles_in_field pressing.
Proof. split; cbn; consts; lra. Qed.

(** With the up arrow held and the ball high up, both paddles climb as
    fast as they may: the player by 5, the AI by 3. *)
Lemma paddles_keep_to_their_speed_witness :
  paddles_in_field pressing
  /\ 0 <= PLAYER_SPEED defaults
  /\ 0 <= AI_MAX_SPEED defaults
  /\ player_y (update defaults 0 pressing) = player_y pressing - 5
  /\ ai_y (update defaults 0 pressing) = ai_y pressing - 3
  /\ Rabs (player_y (update defaults 0 pressing) - player_y pressing)
     <= PLAYER_SPEED defaults
  /\ Rabs (ai_y (update defaults 0 pressing) - ai_y pressing)
     <= AI_MAX_SPEED defaults.
Proof.
  assert (H2 : 0 <= PLAYER_SPEED defaults) by (cbn; lra).
  assert (H3 : 0 <= AI_MAX_SPEED defaults) by (cbn; lra).
  assert (Hrun : running pressing = true) by reflexivity.
  assert (Hpause : ~ clock pressing (clock_reads pressing)
                     < pausedUntil pressing) by (cbn; unfold still; lra).
  assert (H4 : player_y (update defaults 0 pressing) = player_y pressing - 5).
  { rewrite (update_live defaults 0 pressing Hrun Hpause).
    destruct (tick_paddles defaults (snd (performance_now pressing)))
      as [-> _].
    rewrite movePaddles_player.
    change (playerVelocity defaults (snd (performance_now pressing)))
      with (0 - 5).
    change (player_y (snd (performance_now pressing)))
      with (HEIGHT / 2 - PADDLE_HEIGHT / 2).
    change (player_y pressing) with (HEIGHT / 2 - PADDLE_HEIGHT / 2).
    apply eq_trans with (HEIGHT / 2 - PADDLE_HEIGHT / 2 + (0 - 5));
      [apply clamp_id; consts; lra | lra]. }
  assert (H5 : ai_y (update defaults 0 pressing) = ai_y pressing - 3).
  { rewrite (update_live defaults 0 pressing Hrun Hpause).
    destruct (tick_paddles defaults (snd (performance_now pressing)))
      as [_ ->].
    rewrite movePaddles_ai.
    assert (He : aiSpeed_of defaults (snd (performance_now pressing)) = 3).
    { unfold aiSpeed_of. cbv zeta. rewrite Rltb_false by (cbn; lra).
      reflexivity. }
    rewrite He.
    change (ball_y (snd (performance_now pressing))) with 100.
    change (ai_y (snd (performance_now pressing)))
      with (HEIGHT / 2 - PADDLE_HEIGHT / 2).
    change (ai_y pressing) with (HEIGHT / 2 - PADDLE_HEIGHT / 2).
    unfold clamp at 2.
    rewrite (Rmax_left (- 3)), (Rmin_right 3) by (consts; lra).
    apply eq_trans with (HEIGHT / 2 - PADDLE_HEIGHT / 2 + - 3);
      [apply clamp_id; consts; lra | lra]. }
  split; [exact pressing_in_field |].
  repeat (split; [assumption |]).
  exact (paddles_keep_to_their_speed defaults 0 pressing pressing_in_field
           H2 H3).
Defined.

Lemma reset_keeps_the_pause_witness :
  clock pausing (clock_reads pausing) < pausedUntil pausing
  /\ running (reset defaults pausing) = true
  /\ state (update defaults 0 (reset defaults pausing))
     = state (reset defaults pausing).
Proof.
  assert (H : clock pausing (clock_reads pausing) < pausedUntil pausing)
    by (cbn; unfold still; lra).
  destruct (reset_keeps_the_pause defaults 0 pausing H) as (Hr & _ & _ & Hs).
  split; [exact H | split; [exact Hr | exact Hs]].
Defined.

Lemma reflectFromPaddle_turns_back_witness :
  0 < speedAfterHit defaults fresh_game
  /\ 0 < ball_vx fresh_game
  /\ ball_vx (reflectFromPaddle defaults 205 fresh_game) < 0.
Proof.
  assert (H1 : 0 < speedAfterHit defaults fresh_game).
  { unfold speedAfterHit.
    pose proof (Math_hypot_nonneg (ball_vx fresh_game) (ball_vy fresh_game)).
    unfold BALL_SPEED_STEP, BALL_SPEED_MAX.
    cbn [defaults ballSpeedStep ballSpeedMax nullish].
    apply Rmin_glb_lt; lra. }
  assert (H2 : 0 < ball_vx fresh_game) by (cbn; lra).
  split; [exact H1 | split; [exact H2 |]].
  exact (proj1 (reflectFromPaddle_turns_back defaults 205 fresh_game H1) H2).
Defined.

Lemma resetBall_serves_witness :
  (forall n : nat, 0 <= rand fresh_game n <= 1)
  /\ 0 <= BALL_SPEED_INITIAL defaults
  /\ Rabs (ball_vy (resetBall defaults None fresh_game))
     <= BALL_SPEED_INITIAL defaults / 2.
Proof.
  assert (H1 : forall n : nat, 0 <= rand fresh_game n <= 1)
    by (intros n; cbn; unfold still; lra).
  assert (H2 : 0 <= BALL_SPEED_INITIAL defaults) by (cbn; lra).
  split; [exact H1 | split; [exact H2 |]].
  exact (proj1 (proj2 (proj2 (resetBall_serves defaults None fresh_game
                                H1 H2)))).
Defined.

Lemma onKeyUp_after_onKeyDown_witness :
  ("ArrowUp"%string <> "Enter"%string \/ running fresh_game = true)
  /\ onKeyUp "ArrowUp" (onKeyDown defaults "ArrowUp" fresh_game)
     = onKeyUp "ArrowUp" fresh_game.
Proof.
  assert (H : "ArrowUp"%string <> "Enter"%string
              \/ running fresh_game = true) by (left; discriminate).
  split; [exact H |].
  exact (proj1 (onKeyUp_after_onKeyDown defaults "ArrowUp" fresh_game H)).
Defined.

Lemma onTouchMove_within_threshold_witness :
  touches finger_moves_little = [mkTouch 0 20]
  /\ Rabs (clientY (mkTouch 0 20) - touchStartY finger_down)
     <= touchThreshold
  /\ onTouchMove finger_moves_little finger_down
     = set_touchCurrentY 20 finger_down.
Proof.
  assert (H1 : touches finger_moves_little = [mkTouch 0 20]) by reflexivity.
  assert (H2 : Rabs (clientY (mkTouch 0 20) - touchStartY finger_down)
               <= touchThreshold).
  { cbn. rewrite Rabs_right; consts; lra. }
  split; [exact H1 | split; [exact H2 |]].
  exact (proj1 (onTouchMove_within_threshold finger_moves_little
                  (mkTouch 0 20) [] finger_down H1 H2)).
Defined.

Lemma onClick_restarts_witness :
  running fresh_game = false
  /\ running (onClick defaults fresh_game) = true
  /\ deref (scores (onClick defaults fresh_game))
       (onClick defaults fresh_game) = mkScores 0 0.
Proof.
  assert (H : running fresh_game = false) by reflexivity.
  destruct (onClick_restarts defaults fresh_game H) as (Hr & Hs & _).
  split; [exact H | split; [exact Hr | exact Hs]].
Defined.

Lemma stop_halts_witness :
  raf_pending playing = [rafId playing]
  /\ rafId playing <> 0%nat
  /\ raf_pending (stop playing) = []
  /\ animationFrame defaults 16 (stop playing) = stop playing.
Proof.
  assert (H1 : raf_pending playing = [rafId playing]) by reflexivity.
  assert (H2 : rafId playing <> 0%nat) by discriminate.
  destruct (stop_halts defaults playing H1 H2) as (_ & Hp & Hf).
  split; [exact H1 | split; [exact H2 | split; [exact Hp | exact (Hf 16)]]].
Defined.

Lemma reset_without_frame_is_inert_witness :
  raf_pending fresh_game = []
  /\ running (reset defaults fresh_game) = true
  /\ start (reset defaults fresh_game) = reset defaults fresh_game.
Proof.
  assert (H : raf_pending fresh_game = []) by reflexivity.
  destruct (reset_without_frame_is_inert defaults fresh_game H)
    as (Hr & _ & _ & _ & Hs & _).
  split; [exact H | split; [exact Hr | exact Hs]].
Defined.

